(** * The Pushkin dialogue bot: session state machine, resolution chain
      and random poem picker

    A shallow embedding of [src/handlers.py], [src/database.py] and
    [src/ai.py], and the properties of the dialogue handlers stated in the
    specification.

    Conventions of the embedding.
    - A Python [str] is the list of its Unicode code points.  Literals are
      written in UTF-8 and decoded by [u].
    - [str.lower] depends on the Unicode case tables; the development is
      parametric in it (Section variable [lower]).  [lower_ru] is its
      restriction to the Latin and Cyrillic alphabets, used to run the
      handlers on concrete messages.
    - [context.user_data] is a dictionary with five possible keys; it is the
      record [user_data] whose fields are [None] when the key is absent.
    - A handler is a computation over [user_data] that records the calls it
      makes to its collaborators (repository, generative service,
      [reply_text]) and may end with a Python exception. *)

From Stdlib Require Import List Bool Arith NArith ZArith Lia String Ascii.
From Stdlib Require Import Permutation Sorted.
Import ListNotations.

Set Implicit Arguments.

(** ** Python strings *)

Module Py.

Definition str := list N.

Definition chr_eqb (a b : N) : bool := N.eqb a b.

Fixpoint str_eqb (a b : str) : bool :=
  match a, b with
  | [], [] => true
  | x :: a', y :: b' => chr_eqb x y && str_eqb a' b'
  | _, _ => false
  end.

(** UTF-8 decoding of a literal: continuation bytes carry six bits each. *)
Definition cont (b : N) : N := N.land b 63.

Fixpoint utf8_decode (fuel : nat) (bs : list N) : str :=
  match fuel with
  | O => []
  | S fuel' =>
    match bs with
    | [] => []
    | b0 :: r0 =>
      if N.ltb b0 128 then b0 :: utf8_decode fuel' r0
      else if N.ltb b0 224 then
        match r0 with
        | b1 :: r1 =>
          (N.land b0 31 * 64 + cont b1)%N :: utf8_decode fuel' r1
        | _ => []
        end
      else if N.ltb b0 240 then
        match r0 with
        | b1 :: b2 :: r2 =>
          (N.land b0 15 * 4096 + cont b1 * 64 + cont b2)%N
            :: utf8_decode fuel' r2
        | _ => []
        end
      else
        match r0 with
        | b1 :: b2 :: b3 :: r3 =>
          (N.land b0 7 * 262144 + cont b1 * 4096 + cont b2 * 64 + cont b3)%N
            :: utf8_decode fuel' r3
        | _ => []
        end
    end
  end.

Fixpoint bytes_of (s : string) : list N :=
  match s with
  | EmptyString => []
  | String a s' => N_of_ascii a :: bytes_of s'
  end.

Definition u (s : string) : str :=
  let bs := bytes_of s in utf8_decode (List.length bs) bs.

(** [s in {a, b, c}] for a set of strings: only membership is observed. *)
Definition mem (s : str) (l : list str) : bool := existsb (str_eqb s) l.

Definition chr_in (c : N) (chars : str) : bool := existsb (chr_eqb c) chars.

(** [str.isspace] on one code point: the characters Python treats as
    whitespace in [strip()] and [split()]. *)
Definition isspace (c : N) : bool :=
  ((9 <=? c) && (c <=? 13) || (28 <=? c) && (c <=? 32)
   || (c =? 133) || (c =? 160) || (c =? 5760)
   || (8192 <=? c) && (c <=? 8202)
   || (c =? 8232) || (c =? 8233) || (c =? 8239) || (c =? 8287)
   || (c =? 12288))%N.

Fixpoint lstrip_by (p : N -> bool) (s : str) : str :=
  match s with
  | c :: s' => if p c then lstrip_by p s' else s
  | [] => []
  end.

Definition rstrip_by (p : N -> bool) (s : str) : str :=
  rev (lstrip_by p (rev s)).

Definition strip_by (p : N -> bool) (s : str) : str :=
  rstrip_by p (lstrip_by p s).

(** [s.strip()] *)
Definition strip (s : str) : str := strip_by isspace s.

(** [s.strip(chars)] *)
Definition strip_chars (chars : str) (s : str) : str :=
  strip_by (fun c => chr_in c chars) s.

(** [s.split()]: maximal runs of non-whitespace.  [cur] holds the run being
    read, reversed. *)
Fixpoint split_from (cur : str) (s : str) : list str :=
  match s with
  | [] => match cur with [] => [] | _ => [rev cur] end
  | c :: s' =>
    if isspace c then
      match cur with
      | [] => split_from [] s'
      | _ => rev cur :: split_from [] s'
      end
    else split_from (c :: cur) s'
  end.

Definition split (s : str) : list str := split_from [] s.

(** The first run of non-whitespace of [s] and what follows it. *)
Fixpoint span_word (s : str) : str * str :=
  match s with
  | [] => ([], [])
  | c :: s' =>
    if isspace c then ([], s)
    else let (w, r) := span_word s' in (c :: w, r)
  end.

(** [s.split(maxsplit=n)]: after [n] splits the rest of the string, from its
    first non-whitespace character to its end, is the last item. *)
Fixpoint split_max (n : nat) (s : str) : list str :=
  match lstrip_by isspace s with
  | [] => []
  | s' =>
    match n with
    | O => [s']
    | S k => let (w, r) := span_word s' in w :: split_max k r
    end
  end.

(** [s.startswith(p)] *)
Fixpoint startswith (s p : str) : bool :=
  match p, s with
  | [], _ => true
  | x :: p', c :: s' => chr_eqb x c && startswith s' p'
  | _ :: _, [] => false
  end.

(** [s.find(sub)], [None] standing for -1. *)
Fixpoint find (s sub : str) : option nat :=
  if startswith s sub then Some O
  else match s with
       | [] => None
       | _ :: s' => option_map S (find s' sub)
       end.

(** [sub in s] *)
Definition contains (s sub : str) : bool :=
  match find s sub with Some _ => true | None => false end.

(** [s.replace(c, " ")] for a one-character [c]. *)
Definition replace_chr (c : N) (by_ : N) (s : str) : str :=
  map (fun x => if chr_eqb x c then by_ else x) s.

(** [sep.join(items)] *)
Fixpoint join (sep : str) (items : list str) : str :=
  match items with
  | [] => []
  | [x] => x
  | x :: rest => x ++ sep ++ join sep rest
  end.

(** The two line feeds of ["\n\n"]. *)
Definition nl2 : str := [10; 10]%N.

(** Truth value of a string: non-empty. *)
Definition truthy (s : str) : bool :=
  match s with [] => false | _ => true end.

(** Lowercasing on the Latin and Cyrillic alphabets; every other code point
    is unchanged. *)
Definition lower_chr (c : N) : N :=
  if ((65 <=? c) && (c <=? 90))%N then (c + 32)%N
  else if ((1040 <=? c) && (c <=? 1071))%N then (c + 32)%N
  else if ((1024 <=? c) && (c <=? 1039))%N then (c + 80)%N
  else c.

Definition lower_ru (s : str) : str := map lower_chr s.

End Py.

Import Py.

(** [f"{n}"] for a Python [int]. *)
Fixpoint digits (d : Decimal.uint) : str :=
  match d with
  | Decimal.Nil => []
  | Decimal.D0 d' => 48%N :: digits d'
  | Decimal.D1 d' => 49%N :: digits d'
  | Decimal.D2 d' => 50%N :: digits d'
  | Decimal.D3 d' => 51%N :: digits d'
  | Decimal.D4 d' => 52%N :: digits d'
  | Decimal.D5 d' => 53%N :: digits d'
  | Decimal.D6 d' => 54%N :: digits d'
  | Decimal.D7 d' => 55%N :: digits d'
  | Decimal.D8 d' => 56%N :: digits d'
  | Decimal.D9 d' => 57%N :: digits d'
  end.

Definition str_of_int (z : Z) : str :=
  match Z.to_int z with
  | Decimal.Pos d => digits d
  | Decimal.Neg d => 45%N :: digits d
  end.

(** Order of two strings by code points (SQLite's BINARY collation on their
    UTF-8 encodings). *)
Fixpoint str_leb (a b : str) : bool :=
  match a, b with
  | [], _ => true
  | _ :: _, [] => false
  | x :: a', y :: b' => (x <? y)%N || (x =? y)%N && str_leb a' b'
  end.

(** ** The content repository ([src/database.py]) *)

Module Author.
Record t := mk {
  id : Z;
  name : str;
  short_bio : str;
  bio : str;
  era : str;
  key_facts : list (str * str);   (* [{"year": ..., "fact": ...}] *)
  style_description : str
}.
End Author.

Module Book.
Record t := mk {
  author_id : Z;
  title : str;
  year : option Z;
  category : str;
  summary : str;
  excerpt : option str
}.
End Book.

Module Faq.
Record t := mk {
  author_id : Z;
  question : str;
  answer : str;
  keywords : list str
}.
End Faq.

Module Character.
Record t := mk {
  author_id : Z;
  name : str;
  description : str;
  keywords : list str
}.
End Character.

Module Poem.
Record t := mk {
  author_id : Z;
  title : str;
  text : str;
  keywords : list str
}.
End Poem.

(** The five tables, each in row order. *)
Record Database := {
  authors : list Author.t;
  books : list Book.t;
  faq : list Faq.t;
  characters : list Character.t;
  poems : list Poem.t
}.

(** A row of [books] as [get_author_works] returns it. *)
Record work := {
  work_title : str;
  work_year : option Z;
  work_summary : str;
  work_excerpt : option str
}.

(** [dict[str, list[dict]]], in insertion order. *)
Definition works := list (str * list work).

(** [{"title": ..., "text": ...}] as [get_random_poem] returns it. *)
Record poem_dict := { title : str; text : str }.

Module Db.

Section Queries.
Variable lower : str -> str.
Variable db : Database.

(** The row of [authors] with the given id.  The id is an integer of
    SQLite, 64 bits with sign: a Python integer outside that range is not
    bound to the statement, the call raising [OverflowError]; statements
    about an id that arrives from outside carry the range as a hypothesis. *)
Definition get_author (author_id : Z) : option Author.t :=
  List.find (fun a => Z.eqb (Author.id a) author_id) (authors db).

(** The [ORDER BY] of [get_author_works]. *)
Definition category_rank (c : str) : Z :=
  if str_eqb c (u "Стихи") then 1
  else if str_eqb c (u "Поэмы") then 2
  else if str_eqb c (u "Романы") then 3
  else if str_eqb c (u "Повести") then 4
  else if str_eqb c (u "Драмы") then 5
  else if str_eqb c (u "Сказки") then 6
  else 99.

Definition year_leb (a b : option Z) : bool :=
  match a, b with
  | Some x, Some y => Z.leb x y
  | Some _, None => true
  | None, Some _ => false
  | None, None => true
  end.

Definition year_eqb (a b : option Z) : bool :=
  match a, b with
  | Some x, Some y => Z.eqb x y
  | None, None => true
  | _, _ => false
  end.

Definition book_leb (a b : Book.t) : bool :=
  let ra := category_rank (Book.category a) in
  let rb := category_rank (Book.category b) in
  Z.ltb ra rb ||
  Z.eqb ra rb &&
    (negb (year_eqb (Book.year a) (Book.year b))
       && year_leb (Book.year a) (Book.year b)
     || year_eqb (Book.year a) (Book.year b)
        && str_leb (Book.title a) (Book.title b)).

Fixpoint insert_book (b : Book.t) (l : list Book.t) : list Book.t :=
  match l with
  | [] => [b]
  | x :: l' => if book_leb b x then b :: l else x :: insert_book b l'
  end.

Definition order_books (l : list Book.t) : list Book.t :=
  fold_right insert_book [] l.

Fixpoint group_append (category : str) (w : work) (g : works) : works :=
  match g with
  | [] => [(category, [w])]
  | (c, ws) :: g' =>
    if str_eqb c category then (c, ws ++ [w]) :: g'
    else (c, ws) :: group_append category w g'
  end.

Definition get_author_works (author_id : Z) : works :=
  let rows :=
    order_books (filter (fun b => Z.eqb (Book.author_id b) author_id) (books db)) in
  fold_left
    (fun grouped row =>
       group_append (Book.category row)
         {| work_title := Book.title row; work_year := Book.year row;
            work_summary := Book.summary row; work_excerpt := Book.excerpt row |}
         grouped)
    rows [].

Definition get_faq_entries (author_id : Z) : list Faq.t :=
  filter (fun f => Z.eqb (Faq.author_id f) author_id) (faq db).

(** [any(keyword in normalized for keyword in keywords)] *)
Definition any_keyword (keywords : list str) (normalized : str) : bool :=
  existsb (fun keyword => contains normalized keyword) keywords.

Definition find_faq_answer (author_id : Z) (user_text : str) : option str :=
  let normalized := lower user_text in
  option_map Faq.answer
    (List.find (fun entry => any_keyword (Faq.keywords entry) normalized)
       (get_faq_entries author_id)).

Definition poem_rows (author_id : Z) : list Poem.t :=
  filter (fun p => Z.eqb (Poem.author_id p) author_id) (poems db).

Definition find_poem_text (author_id : Z) (user_text : str) : option str :=
  let normalized := lower user_text in
  option_map (fun row => Poem.title row ++ nl2 ++ Poem.text row)
    (List.find (fun row => any_keyword (Poem.keywords row) normalized)
       (poem_rows author_id)).

Fixpoint insert_title (t : str) (l : list str) : list str :=
  match l with
  | [] => [t]
  | x :: l' => if str_leb t x then t :: l else x :: insert_title t l'
  end.

Definition get_poem_titles (author_id : Z) : list str :=
  fold_right insert_title [] (map Poem.title (poem_rows author_id)).

(** [random.choice(seq)] for a non-empty [seq], [draw] being the number the
    generator produces. *)
Definition choice (A : Type) (draw : nat) (d : A) (seq : list A) : A :=
  nth (draw mod List.length seq) seq d.

(** [not exclude_titles or row["title"] not in exclude_titles] *)
Definition eligible (exclude_titles : option (list str)) (row : Poem.t) : bool :=
  negb (match exclude_titles with
        | None | Some [] => false
        | Some _ => true
        end)
  || negb (match exclude_titles with
           | Some ex => mem (Poem.title row) ex
           | None => false
           end).

Definition get_random_poem (author_id : Z) (exclude_titles : option (list str))
    (draw : nat) : option poem_dict :=
  let candidates :=
    map (fun row => {| title := Poem.title row; text := Poem.text row |})
      (filter (eligible exclude_titles) (poem_rows author_id)) in
  match candidates with
  | [] => None
  | c :: _ => Some (choice draw c candidates)
  end.

Definition find_character_insight (author_id : Z) (user_text : str)
    : option str :=
  let normalized := lower user_text in
  option_map
    (fun row => Character.name row ++ u ": " ++ Character.description row)
    (List.find (fun row => any_keyword (Character.keywords row) normalized)
       (filter (fun c => Z.eqb (Character.author_id c) author_id)
          (characters db))).

End Queries.

(** [_ensure_poem]: update the rows of that author and title, or insert one. *)
Definition same_poem (author_id : Z) (title : str) (row : Poem.t) : bool :=
  Z.eqb (Poem.author_id row) author_id && str_eqb (Poem.title row) title.

Definition _ensure_poem (lower : str -> str) (author_id : Z) (title text : str)
    (keywords : list str) (rows : list Poem.t) : list Poem.t :=
  let normalized_keywords := map lower keywords in
  if existsb (same_poem author_id title) rows then
    map (fun row =>
           if same_poem author_id title row
           then Poem.mk (Poem.author_id row) (Poem.title row) text
                  normalized_keywords
           else row)
        rows
  else rows ++ [Poem.mk author_id title text normalized_keywords].

End Db.

(** ** Exceptions and results *)

Inductive exn :=
| IndexError
| APIError (code : option str)      (* [openai.APIError] and its subclasses *)
| OtherError (cls : str).           (* any exception that is not an APIError *)

Inductive res (A : Type) :=
| Ret (a : A)
| Raise (e : exn).

Arguments Ret {A} a.
Arguments Raise {A} e.

(** ** The generative fallback adapter ([src/ai.py]) *)

Module Ai.

Definition nl : str := [10%N].

(** The arguments of [client.responses.create]. *)
Record request := {
  model : str;
  system_text : str;
  user_text : str;
  max_output_tokens : Z
}.

(** What [getattr(response, "output_text", "")] reads: [None] when the
    response has no such attribute. *)
Record response := { output_text : option str }.

(** The provider: returns a response or raises. *)
Definition provider := request -> res response.

Definition opt_truthy (o : option str) : bool :=
  match o with Some s => truthy s | None => false end.

Definition year_truthy (y : option Z) : bool :=
  match y with Some z => negb (Z.eqb z 0) | None => false end.

Definition work_lines (w : work) : list str :=
  let year :=
    match work_year w with
    | Some y => if year_truthy (Some y) then u " (" ++ str_of_int y ++ u ")" else []
    | None => []
    end in
  (u "  • " ++ work_title w ++ year ++ u " — " ++ work_summary w)
  :: match work_excerpt w with
     | Some e => if truthy e then [u "    Цитата: «" ++ e ++ u "»"] else []
     | None => []
     end.

Definition _build_system_prompt (author : Author.t) (ws : works) : str :=
  let fact_lines :=
    join nl (map (fun item => u "- " ++ fst item ++ u ": " ++ snd item)
               (Author.key_facts author)) in
  let works_lines :=
    flat_map (fun entry => (fst entry ++ u ":") :: flat_map work_lines (snd entry))
      ws in
  let works_block := join nl works_lines in
  Author.style_description author ++ nl ++ nl
  ++ u "Главные факты биографии:" ++ nl ++ fact_lines ++ nl ++ nl
  ++ u "Краткая биографическая справка: " ++ Author.bio author ++ nl ++ nl
  ++ u "Произведения для упоминания:" ++ nl ++ works_block ++ nl ++ nl
  ++ u "Отвечай как живой Пушкин, но не выдавай вымыслы, если их нет в фактах. "
  ++ u "Поддерживай диалог, задавая встречные вопросы, когда уместно. "
  ++ u "Сохраняй уважительный тон, не отклоняйся от исторического контекста XIX века.".

Definition degraded_apology : str :=
  u "Не удалось связаться с литературной музой — сервер ответил ошибкой и оборвал беседу. "
  ++ u "Я уже готовлю перо к новой попытке, попробуйте написать ещё раз через минутку.".

Definition lost_in_thought : str :=
  u "Я задумался так глубоко, что чернила застенчиво спрятались. "
  ++ u "Попробуйте переформулировать вопрос — и я отвечу с прежним пушкинским задором!".

(** The note on the error code: [f' (код ошибки {code})' if code else '']. *)
Definition code_note (code : option str) : str :=
  if opt_truthy code
  then u " (код ошибки " ++ match code with Some c => c | None => [] end
       ++ u ")"
  else [].

Section Adapter.
Variable openai_model : str.
Variable create : provider.

Definition request_for (author : Author.t) (ws : works) (user_message : str)
    : request :=
  let system_prompt := _build_system_prompt author ws in
  let user_prompt := strip user_message in
  {| model := openai_model; system_text := system_prompt;
     user_text := user_prompt; max_output_tokens := 200 |}.

Definition generate_reply (author : Author.t) (ws : works) (user_message : str)
    : res str :=
  match create (request_for author ws user_message) with
  | Raise (APIError code) => Ret (degraded_apology ++ code_note code)
  | Raise e => Raise e
  | Ret response =>
    let text := strip (match output_text response with
                       | Some t => t
                       | None => []
                       end) in
    if truthy text then Ret text else Ret lost_in_thought
  end.

End Adapter.
End Ai.

(** ** Session data ([context.user_data]) *)

(** The three values ever stored under ["dialog_stage"]. *)
Inductive stage := ask_name | offer_poem | after_poem.

Definition stage_eqb (a b : stage) : bool :=
  match a, b with
  | ask_name, ask_name | offer_poem, offer_poem | after_poem, after_poem => true
  | _, _ => false
  end.

Record user_data := {
  dialog_author_id : option Z;
  dialog_author_name : option str;
  dialog_stage : option stage;
  poems_used : option (list str);
  user_name : option str
}.

Definition empty_user_data : user_data :=
  {| dialog_author_id := None; dialog_author_name := None;
     dialog_stage := None; poems_used := None; user_name := None |}.

Definition set_author_id (v : Z) (d : user_data) : user_data :=
  {| dialog_author_id := Some v; dialog_author_name := dialog_author_name d;
     dialog_stage := dialog_stage d; poems_used := poems_used d;
     user_name := user_name d |}.

Definition set_author_name (v : str) (d : user_data) : user_data :=
  {| dialog_author_id := dialog_author_id d; dialog_author_name := Some v;
     dialog_stage := dialog_stage d; poems_used := poems_used d;
     user_name := user_name d |}.

Definition set_stage (v : stage) (d : user_data) : user_data :=
  {| dialog_author_id := dialog_author_id d;
     dialog_author_name := dialog_author_name d;
     dialog_stage := Some v; poems_used := poems_used d;
     user_name := user_name d |}.

Definition set_poems_used (v : list str) (d : user_data) : user_data :=
  {| dialog_author_id := dialog_author_id d;
     dialog_author_name := dialog_author_name d;
     dialog_stage := dialog_stage d; poems_used := Some v;
     user_name := user_name d |}.

Definition set_user_name (v : str) (d : user_data) : user_data :=
  {| dialog_author_id := dialog_author_id d;
     dialog_author_name := dialog_author_name d;
     dialog_stage := dialog_stage d; poems_used := poems_used d;
     user_name := Some v |}.

(** [user_data.setdefault("poems_used", [])] *)
Definition setdefault_poems_used (d : user_data) : user_data :=
  match poems_used d with
  | Some _ => d
  | None => set_poems_used [] d
  end.

(** [user_data.get("poems_used", [])] *)
Definition get_poems_used (d : user_data) : list str :=
  match poems_used d with Some l => l | None => [] end.

(** ** Handler computations *)

(** Calls a handler makes to its collaborators, in the order made. *)
Inductive call :=
| Db_get_author (author_id : Z)
| Db_find_poem_text (author_id : Z) (user_text : str)
| Db_get_poem_titles (author_id : Z)
| Db_find_character_insight (author_id : Z) (user_text : str)
| Db_find_faq_answer (author_id : Z) (user_text : str)
| Db_get_author_works (author_id : Z)
| Db_get_random_poem (author_id : Z) (exclude_titles : option (list str))
| Ai_generate_reply (author : Author.t) (ws : works) (user_message : str)
| Query_answer
| Edit_message_text (s : str)
| Reply_text (s : str).

Record outcome (A : Type) := {
  value : res A;
  data : user_data;
  calls : list call
}.

Definition M (A : Type) := user_data -> outcome A.

Definition ret {A} (a : A) : M A :=
  fun d => {| value := Ret a; data := d; calls := [] |}.

Definition raise {A} (e : exn) : M A :=
  fun d => {| value := Raise e; data := d; calls := [] |}.

Definition bind {A B} (m : M A) (k : A -> M B) : M B :=
  fun d =>
    let o := m d in
    match value o with
    | Ret a =>
      let o' := k a (data o) in
      {| value := value o'; data := data o'; calls := calls o ++ calls o' |}
    | Raise e => {| value := Raise e; data := data o; calls := calls o |}
    end.

Definition get : M user_data :=
  fun d => {| value := Ret d; data := d; calls := [] |}.

Definition modify (f : user_data -> user_data) : M unit :=
  fun d => {| value := Ret tt; data := f d; calls := [] |}.

Definition emit (c : call) : M unit :=
  fun d => {| value := Ret tt; data := d; calls := [c] |}.

Declare Scope handler_scope.
Delimit Scope handler_scope with handler.
Notation "x <- m ;; k" := (bind m (fun x => k))
  (at level 61, m at next level, right associativity) : handler_scope.
Notation "m ;; k" := (bind m (fun _ => k))
  (at level 61, right associativity) : handler_scope.
Open Scope handler_scope.

(** ** The dialogue handlers ([src/handlers.py]) *)

Module Msg.
Definition greeting : str :=
  u "Привет! Меня зовут Александр Сергеевич Пушкин! Как тебя зовут?".
Definition no_author : str := u "Автор не выбран. Используйте /start.".
Definition author_not_loaded : str :=
  u "Не удалось загрузить сведения об авторе.".
Definition name_not_heard : str :=
  u "Не расслышал имени — повторите, пожалуйста.".
Definition introduce_yourself : str :=
  u "Давайте всё же представимся — как к вам обращаться?".
Definition offer_declined : str :=
  u "Как скажешь! Но знай: мой стих всегда на изготовке, стоит лишь щёлкнуть веером.".
Definition enough_poems : str :=
  u "Хорошо, приберегу рифмы до лучшего случая. Но стоит вам мигнуть — и я снова в строю!".
Definition no_poems : str :=
  u "Похоже, сейчас подходящих стихов под рукой нет.".
Definition dialog_unavailable : str := u "Диалог недоступен: автор не найден.".
Definition dialog_finished : str :=
  u "Диалог завершён. Используйте /start, чтобы начать заново.".
Definition goodbye : str :=
  u "До новых встреч! Используйте /start, чтобы начать заново.".
Definition hello (name : str) : str :=
  u "Привет, " ++ name ++ u "! Хочешь, расскажу стих?".
Definition poem_list (poems_list : str) : str :=
  u "Могу рассказать стихи: " ++ poems_list ++ u ". Уточните, какой вам нужен.".
Definition entered (author_name : str) : str :=
  u "Вы вступили в беседу с " ++ author_name ++ u "." ++ nl2
  ++ u "Чтобы выйти, отправьте команду /stop или /menu.".
End Msg.

(** The punctuation replaced by [_tokenize]; code point 34 is the double
    quote.  The name capture strips the same characters and the space. *)
Definition separators : str := u ",.!?;:" ++ [34%N] ++ u "'()[]{}<>«»—-".

Definition name_strip_chars : str := 32%N :: separators.

(** [_tokenize]: every separator becomes a space, then the text is split. *)
Definition _tokenize (text : str) : list str :=
  let text := fold_left (fun t char => replace_chr char 32%N t) separators text in
  filter truthy (split text).

(** [tokens & {...}] as a truth value. *)
Definition intersects (tokens words : list str) : bool :=
  existsb (fun t => mem t words) tokens.

Definition greetings : list str :=
  [u "привет"; u "здравствуй"; u "здравствуйте"].

Definition menya_zovut : str := u "меня зовут".

(** The incoming [update.message]. *)
Record message := { message_text : option str }.

(** What the environment supplies during one call of a handler: the number
    drawn by [random.choice] (called at most once per turn) and the
    behaviour of the provider. *)
Record env := { draw : nat; create : Ai.provider }.

Section Handlers.
Variable lower : str -> str.
Variable db : Database.
Variable openai_model : str.

(** The calls to the messenger are recorded and taken to return: the log of
    an outcome holds the texts handed to [reply_text], and a transport that
    raises is outside this model. *)
Definition reply_text (s : str) : M unit := emit (Reply_text s).

Definition stage_is (st : option stage) (s : stage) : bool :=
  match st with Some x => stage_eqb x s | None => false end.

Definition deliver (poem : poem_dict) : M bool :=
  modify (fun d => set_poems_used (get_poems_used d ++ [title poem]) d) ;;
  reply_text (title poem ++ nl2 ++ text poem) ;;
  ret true.

Definition _send_random_poem (draw : nat) (author : Author.t) : M bool :=
  d <- get ;;
  let used := get_poems_used d in
  emit (Db_get_random_poem (Author.id author) (Some used)) ;;
  match Db.get_random_poem db (Author.id author) (Some used) draw with
  | Some poem => deliver poem
  | None =>
    modify (set_poems_used []) ;;
    emit (Db_get_random_poem (Author.id author) None) ;;
    match Db.get_random_poem db (Author.id author) None draw with
    | None => reply_text Msg.no_poems ;; ret false
    | Some poem => deliver poem
    end
  end.

(** Lines 213-236: the resolution chain. *)
Definition resolution_chain (e : env) (author_id : Z) (author : Author.t)
    (text text_lower : str) : M unit :=
  emit (Db_find_poem_text author_id text_lower) ;;
  let poem_answer := Db.find_poem_text lower db author_id text_lower in
  if Ai.opt_truthy poem_answer then
    reply_text (match poem_answer with Some s => s | None => [] end)
  else if contains text_lower (u "расскажи") && contains text_lower (u "стих")
  then
    emit (Db_get_poem_titles author_id) ;;
    let poems_list := join (u ", ") (Db.get_poem_titles db author_id) in
    reply_text (Msg.poem_list poems_list)
  else
    emit (Db_find_character_insight author_id text_lower) ;;
    let character_answer :=
      Db.find_character_insight lower db author_id text_lower in
    if Ai.opt_truthy character_answer then
      reply_text (match character_answer with Some s => s | None => [] end)
    else
      emit (Db_find_faq_answer author_id text_lower) ;;
      let faq_answer := Db.find_faq_answer lower db author_id text_lower in
      if Ai.opt_truthy faq_answer then
        reply_text (match faq_answer with Some s => s | None => [] end)
      else
        emit (Db_get_author_works author_id) ;;
        let ws := Db.get_author_works db author_id in
        emit (Ai_generate_reply author ws text) ;;
        match Ai.generate_reply openai_model (create e) author ws text with
        | Ret ai_response => reply_text ai_response
        | Raise x => raise x
        end.

(** Lines 166-174: where the name is looked for in the trimmed input. *)
Definition name_candidate (cleaned : str) : str :=
  let lower_cleaned := lower cleaned in
  match find lower_cleaned menya_zovut with
  | Some i =>
    let start := i + List.length menya_zovut in
    strip (skipn start cleaned)
  | None =>
    if startswith lower_cleaned (u "меня") then
      match split_max 2 cleaned with
      | _ :: second :: _ => second
      | _ => cleaned
      end
    else cleaned
  end.

(** Lines 161-183: the name is being asked. *)
Definition ask_name_rules (text : str) : M unit :=
  let cleaned := strip text in
  if negb (truthy cleaned) then reply_text Msg.name_not_heard
  else
    let name_candidate :=
      strip_chars name_strip_chars (name_candidate cleaned) in
    if negb (truthy name_candidate) then reply_text Msg.introduce_yourself
    else
      match split name_candidate with
      | [] => raise IndexError
      | name :: _ =>
        modify (set_user_name name) ;;
        modify (set_stage offer_poem) ;;
        reply_text (Msg.hello name)
      end.

Definition offer_declines (text_lower : str) : bool :=
  intersects (_tokenize text_lower) [u "нет"; u "неа"]
  || contains text_lower (u "не хочу") || contains text_lower (u "не надо").

Definition offer_accepts (text_lower : str) : bool :=
  existsb (fun phrase => contains text_lower phrase)
    [u "расскажи"; u "давай"; u "прочитай"]
  || intersects (_tokenize text_lower) [u "да"; u "хочу"; u "конечно"; u "ага"].

(** Lines 185-198; [fall_through] is the code after the block. *)
Definition offer_poem_rules (e : env) (author : Author.t) (text_lower : str)
    (fall_through : M unit) : M unit :=
  if offer_declines text_lower then reply_text Msg.offer_declined
  else if offer_accepts text_lower then
    sent <- _send_random_poem (draw e) author ;;
    if (sent : bool) then modify (set_stage after_poem) else ret tt
  else fall_through.

Definition asks_more (text_lower : str) : bool :=
  (contains text_lower (u "ещё") || contains text_lower (u "еще"))
  && (contains text_lower (u "расскажи") || contains text_lower (u "прочитай")
      || contains text_lower (u "стих")).

Definition after_declines (text_lower : str) : bool :=
  intersects (_tokenize text_lower) [u "нет"; u "хватит"; u "достаточно"]
  || contains text_lower (u "не надо").

(** Lines 200-211. *)
Definition after_poem_rules (e : env) (author : Author.t) (text_lower : str)
    (fall_through : M unit) : M unit :=
  if asks_more text_lower then
    sent <- _send_random_poem (draw e) author ;;
    if (sent : bool) then modify (set_stage after_poem) else ret tt
  else if after_declines text_lower then reply_text Msg.enough_poems
  else fall_through.

Definition is_greeting (text_lower : str) (st : option stage) : bool :=
  mem text_lower greetings && negb (stage_is st ask_name).

(** Lines 161-236: what runs when the greeting rule did not fire. *)
Definition stage_rules (e : env) (st : option stage) (author_id : Z)
    (author : Author.t) (text text_lower : str) : M unit :=
  let chain := resolution_chain e author_id author text text_lower in
  let from_after :=
    if stage_is st after_poem then after_poem_rules e author text_lower chain
    else chain in
  let from_offer :=
    if stage_is st offer_poem then offer_poem_rules e author text_lower from_after
    else from_after in
  if stage_is st ask_name then ask_name_rules text else from_offer.

Definition handle_dialog_message (e : env) (upd : option message) : M unit :=
  match upd with
  | None => ret tt
  | Some msg =>
    let text := match message_text msg with Some t => t | None => [] end in
    let text_lower := lower text in
    d <- get ;;
    match dialog_author_id d with
    | None => reply_text Msg.no_author
    | Some author_id =>
      if Z.eqb author_id 0 then reply_text Msg.no_author
      else
        emit (Db_get_author author_id) ;;
        match Db.get_author db author_id with
        | None => reply_text Msg.author_not_loaded
        | Some author =>
          let st := dialog_stage d in
          if is_greeting text_lower st then
            modify (set_stage ask_name) ;;
            modify setdefault_poems_used ;;
            reply_text Msg.greeting
          else stage_rules e st author_id author text text_lower
        end
    end
  end.

(** [enter_dialog], [author_id] being the number in the callback data and
    [has_message] telling whether [query.message] is set. *)
Definition enter_dialog (author_id : Z) (has_message : bool) : M unit :=
  emit Query_answer ;;
  emit (Db_get_author author_id) ;;
  match Db.get_author db author_id with
  | None => emit (Edit_message_text Msg.dialog_unavailable)
  | Some author =>
    modify (set_author_id author_id) ;;
    modify (set_author_name (Author.name author)) ;;
    modify (set_stage ask_name) ;;
    modify (set_poems_used []) ;;
    emit (Edit_message_text (Msg.entered (Author.name author))) ;;
    if has_message then reply_text Msg.greeting else ret tt
  end.

(** [stop_dialog]: the five keys are popped. *)
Definition stop_dialog (has_message : bool) : M unit :=
  modify (fun _ => empty_user_data) ;;
  if has_message then reply_text Msg.dialog_finished else ret tt.

(** [end]: [user_data.clear()]. *)
Definition end_ : M unit :=
  emit Query_answer ;;
  emit (Edit_message_text Msg.goodbye) ;;
  modify (fun _ => empty_user_data).

End Handlers.

(** ** Settings ([src/config.py]) *)

Module Config.

(** [os.environ] after [load_dotenv()]. *)
Definition environ := str -> option str.

(** A value, or [SettingsError] with its message. *)
Inductive loaded (A : Type) :=
| Loaded (a : A)
| SettingsError (message : str).

Arguments Loaded {A} a.
Arguments SettingsError {A} message.

Definition required (name : str) : str :=
  u "Environment variable " ++ name ++ u " is required.".

(** [os.getenv(name, default)] *)
Definition getenv (env : environ) (name : str) (default : option str)
    : option str :=
  match env name with
  | Some value => Some value
  | None => default
  end.

Definition _get_env (env : environ) (name : str) (default : option str)
    : loaded str :=
  match getenv env name default with
  | None => SettingsError (required name)
  | Some value =>
    if negb (truthy (strip value)) then SettingsError (required name)
    else Loaded (strip value)
  end.

(** [database_path] holds the argument of [Path]. *)
Record Settings := {
  telegram_token : str;
  openai_api_key : str;
  openai_model : str;
  database_path : str
}.

Definition get_settings (env : environ) : loaded Settings :=
  match _get_env env (u "TELEGRAM_BOT_TOKEN") None with
  | SettingsError m => SettingsError m
  | Loaded telegram_token =>
    match _get_env env (u "OPENAI_API_KEY") None with
    | SettingsError m => SettingsError m
    | Loaded openai_api_key =>
      match _get_env env (u "OPENAI_MODEL") (Some (u "gpt-5.0-nano")) with
      | SettingsError m => SettingsError m
      | Loaded openai_model =>
        match _get_env env (u "DATABASE_PATH")
                (Some (u "data/literature.db")) with
        | SettingsError m => SettingsError m
        | Loaded database_path =>
          Loaded {| telegram_token := telegram_token;
                    openai_api_key := openai_api_key;
                    openai_model := openai_model;
                    database_path := database_path |}
        end
      end
    end
  end.

(** The variable is usable: set (or defaulted) and not blank. *)
Definition usable (env : environ) (name : str) (default : option str) : bool :=
  match getenv env name default with
  | Some value => truthy (strip value)
  | None => false
  end.

End Config.

(** ** Notions used by the statements *)

(** A handler's outcome with the calls [cs] made before it. *)
Definition prepend (A : Type) (cs : list call) (o : outcome A) : outcome A :=
  {| value := value o; data := data o; calls := cs ++ calls o |}.

(** The session is bound to an author the repository has: the two guards at
    the head of [handle_dialog_message] pass. *)
Definition bound (db : Database) (d : user_data) (author_id : Z)
    (author : Author.t) : Prop :=
  dialog_author_id d = Some author_id /\ author_id <> 0%Z
  /\ Db.get_author db author_id = Some author.

Definition text_of (msg : message) : str :=
  match message_text msg with Some t => t | None => [] end.

(** The state machine answers the turn itself: one of its rules matches. *)
Definition short_circuits (st : option stage) (text_lower : str) : bool :=
  is_greeting text_lower st
  || stage_is st ask_name
  || stage_is st offer_poem
     && (offer_declines text_lower || offer_accepts text_lower)
  || stage_is st after_poem
     && (asks_more text_lower || after_declines text_lower).

(** The message that delivers a poem: [f"{title}\n\n{text}"]. *)
Definition render (row : Poem.t) : str :=
  Poem.title row ++ nl2 ++ Poem.text row.

(** In the chain no scripted step answers: both lookups that build their
    reply find no row, the message does not ask for the list of poems, and
    the FAQ lookup gives nothing to send. *)
Definition lookups_fail (lower : str -> str) (db : Database) (a : Z)
    (text_lower : str) : Prop :=
  Db.find_poem_text lower db a text_lower = None
  /\ (contains text_lower (u "расскажи") && contains text_lower (u "стих"))
     = false
  /\ Db.find_character_insight lower db a text_lower = None
  /\ Ai.opt_truthy (Db.find_faq_answer lower db a text_lower) = false.

Definition is_adapter_call (c : call) : bool :=
  match c with Ai_generate_reply _ _ _ => true | _ => false end.

Definition is_picker_call (c : call) : bool :=
  match c with Db_get_random_poem _ _ => true | _ => false end.

Fixpoint sent_texts (cs : list call) : list str :=
  match cs with
  | [] => []
  | Reply_text s :: cs' => s :: sent_texts cs'
  | _ :: cs' => sent_texts cs'
  end.

(** The rows whose title is not in the list of used titles. *)
Definition unused (used : list str) (rows : list Poem.t) : list Poem.t :=
  filter (fun row => negb (mem (Poem.title row) used)) rows.

Definition as_dict (row : Poem.t) : poem_dict :=
  {| title := Poem.title row; text := Poem.text row |}.

(** What [_ensure_poem] looks a row up by. *)
Definition poem_key (row : Poem.t) : Z * str :=
  (Poem.author_id row, Poem.title row).

(** Every title in the list of used titles was already there, or a poem of
    that title is delivered by one of the calls. *)
Definition accounted (A : Type) (db : Database) (d : user_data)
    (o : outcome A) : Prop :=
  forall t, In t (get_poems_used (data o)) ->
    In t (get_poems_used d)
    \/ exists row, In row (poems db) /\ Poem.title row = t
                   /\ In (Reply_text (render row)) (calls o).

(** A poem of title [t] was delivered by one of the calls [cs]. *)
Definition delivered_in (db : Database) (cs : list call) (t : str) : Prop :=
  exists row, In row (poems db) /\ Poem.title row = t
              /\ In (Reply_text (render row)) cs.

(** A turn that returns sends one text; a turn that raises sends none. *)
Definition replies_once (A : Type) (o : outcome A) : Prop :=
  match value o with
  | Ret _ => exists s, sent_texts (calls o) = [s]
  | Raise _ => sent_texts (calls o) = []
  end.

(** The moves of the stage that one message can make. *)
Definition allowed_next (st st' : option stage) : bool :=
  match st, st' with
  | None, None | None, Some ask_name => true
  | Some ask_name, Some ask_name | Some ask_name, Some offer_poem => true
  | Some offer_poem, Some offer_poem | Some offer_poem, Some after_poem
  | Some offer_poem, Some ask_name => true
  | Some after_poem, Some after_poem | Some after_poem, Some ask_name => true
  | _, _ => false
  end.

(** The message asks for a poem: it accepts the offer without declining
    it, or asks for one more after a poem. *)
Definition requests_poem (st : option stage) (text_lower : str) : bool :=
  stage_is st offer_poem
  && negb (offer_declines text_lower) && offer_accepts text_lower
  || stage_is st after_poem && asks_more text_lower.

(** [_send_random_poem] called once per draw, each call on the session data
    the previous one left. *)
Fixpoint send_all (db : Database) (author : Author.t) (draws : list nat)
    (d : user_data) : list (outcome bool) :=
  match draws with
  | [] => []
  | r :: rs =>
    let o := _send_random_poem db r author d in
    o :: send_all db author rs (data o)
  end.

Definition last_data (A : Type) (d : user_data) (os : list (outcome A))
    : user_data :=
  data (last os {| value := Raise IndexError; data := d; calls := [] |}).

(** Updates that reach the handlers reading or writing [user_data]. *)
Inductive event :=
| Enter_dialog (author_id : Z) (has_message : bool)
| Dialog_message (e : env) (upd : option message)
| Stop_dialog (has_message : bool)
| End_dialog.

(** A user's session data and the calls made since the dialogue was
    entered. *)
Record session := { session_data : user_data; transcript : list call }.

Definition start_session : session :=
  {| session_data := empty_user_data; transcript := [] |}.

Section Run.
Variable lower : str -> str.
Variable db : Database.
Variable openai_model : str.

Definition step (s : session) (ev : event) : session :=
  match ev with
  | Enter_dialog author_id has_message =>
    let o := enter_dialog db author_id has_message (session_data s) in
    match Db.get_author db author_id with
    | Some _ => {| session_data := data o; transcript := calls o |}
    | None => {| session_data := data o; transcript := transcript s ++ calls o |}
    end
  | Dialog_message e upd =>
    let o := handle_dialog_message lower db openai_model e upd (session_data s) in
    {| session_data := data o; transcript := transcript s ++ calls o |}
  | Stop_dialog has_message =>
    let o := stop_dialog has_message (session_data s) in
    {| session_data := data o; transcript := transcript s ++ calls o |}
  | End_dialog =>
    let o := end_ (session_data s) in
    {| session_data := data o; transcript := transcript s ++ calls o |}
  end.

Definition run (evs : list event) : session := fold_left step evs start_session.

End Run.

(** The name as the specification computes it.  [after_phrase low s phrase]
    is the part of [s] after the first occurrence of [phrase] in [low], the
    two strings read side by side. *)
Fixpoint after_phrase (low s phrase : str) : str :=
  if startswith low phrase then skipn (List.length phrase) s
  else match low with
       | [] => []
       | _ :: low' => after_phrase low' (tl s) phrase
       end.

Definition spec_candidate (lower : str -> str) (input : str) : str :=
  let trimmed := strip input in
  let low := lower trimmed in
  if contains low menya_zovut then strip (after_phrase low trimmed menya_zovut)
  else if startswith low (u "меня") && (2 <=? List.length (split trimmed))
  then nth 1 (split trimmed) []
  else trimmed.




(** ** A small repository and session for running the handlers *)

Module Sample.

Definition pushkin : Author.t :=
  Author.mk 1 (u "Александр Сергеевич Пушкин") (u "Русский поэт.")
    (u "Александр Сергеевич Пушкин (1799–1837) — русский поэт.")
    (u "Золотой век русской литературы")
    [(u "1799", u "Родился в Москве в дворянской семье.")]
    (u "Ты — Александр Сергеевич Пушкин.").

Definition uznik : Poem.t :=
  Poem.mk 1 (u "Узник") (u "Сижу за решёткой в темнице сырой.")
    [u "узник"; u "стих узник"].

Definition osen : Poem.t :=
  Poem.mk 1 (u "Осень") (u "Унылая пора! Очей очарованье!")
    [u "осень"; u "стих осень"].

Definition db : Database :=
  {| authors := [pushkin];
     books := [Book.mk 1 (u "Узник") (Some 1822%Z) (u "Стихи")
                 (u "Лирическое размышление о жажде свободы.") None;
               Book.mk 1 (u "Медный всадник") (Some 1833%Z) (u "Поэмы")
                 (u "Поэма о маленьком человеке.")
                 (Some (u "Люблю тебя, Петра творенье..."))];
     faq := [Faq.mk 1 (u "Как вы пишете?") (u "Чаще всего по плану.")
               [u "план"]];
     characters := [Character.mk 1 (u "Евгений Онегин") (u "Молодой дворянин.")
                      [u "онегин"]];
     poems := [uznik; osen] |}.

(** The same repository with an FAQ entry whose stored answer is empty. *)
Definition db_blank_faq : Database :=
  {| authors := authors db; books := books db;
     faq := [Faq.mk 1 (u "Дуэль?") [] [u "дуэль"]];
     characters := characters db; poems := poems db |}.



Definition model : str := u "gpt-5.0-nano".

Definition answers (s : str) : Ai.provider :=
  fun _ => Ret {| Ai.output_text := Some s |}.

Definition fails (code : option str) : Ai.provider :=
  fun _ => Raise (APIError code).

Definition turn (r : nat) (create : Ai.provider) : env :=
  {| draw := r; create := create |}.

Definition in_stage (st : stage) (used : list str) : user_data :=
  {| dialog_author_id := Some 1%Z;
     dialog_author_name := Some (Author.name pushkin);
     dialog_stage := Some st; poems_used := Some used; user_name := None |}.

Definition says (s : str) : option message :=
  Some {| message_text := Some s |}.

Definition handle (e : env) (t : str) (d : user_data) : outcome unit :=
  handle_dialog_message lower_ru db model e (says t) d.

End Sample.
Example u_privet : u "привет" = [1087; 1088; 1080; 1074; 1077; 1090]%N.
Proof. vm_compute. reflexivity. Qed.

Example split_ex : split (u " да,  хочу ") = [u "да,"; u "хочу"].
Proof. vm_compute. reflexivity. Qed.

Example split_max_ex :
  split_max 2 (u "меня  зовут Пётр  Первый ") =
  [u "меня"; u "зовут"; u "Пётр  Первый "].
Proof. vm_compute. reflexivity. Qed.

Example lower_ex : lower_ru (u "Меня Зовут ПЁТР, Ok") = u "меня зовут пётр, ok".
Proof. vm_compute. reflexivity. Qed.

Example find_ex : find (u "ну, меня зовут пётр") (u "меня зовут") = Some 4.
Proof. vm_compute. reflexivity. Qed.

Example str_of_int_ex : str_of_int 1829 = u "1829" /\ str_of_int (-5) = u "-5".
Proof. split; vm_compute; reflexivity. Qed.


(** * Properties *)

(** ** Strings *)

Lemma str_eqb_eq (a b : str) : str_eqb a b = true <-> a = b.
Proof.
  revert b; induction a as [|x a IH]; intros [|y b]; simpl; split;
    try congruence; try discriminate.
  - intros H. apply andb_true_iff in H as [Hx Hab].
    apply N.eqb_eq in Hx. apply IH in Hab. congruence.
  - intros H. injection H as -> ->. apply andb_true_iff. split.
    + apply N.eqb_refl.
    + now apply IH.
Qed.

Lemma mem_In (s : str) (l : list str) : mem s l = true <-> In s l.
Proof.
  unfold mem. rewrite existsb_exists. split.
  - intros [x [Hx Heq]]. apply str_eqb_eq in Heq. now subst.
  - intros H. exists s. split; [assumption | now apply str_eqb_eq].
Qed.

Lemma mem_greetings (s : str) :
  mem s greetings = true <->
  s = u "привет" \/ s = u "здравствуй" \/ s = u "здравствуйте".
Proof.
  rewrite mem_In. unfold greetings. cbn [In]. split.
  - intros [H | [H | [H | []]]]; symmetry in H.
    + left; exact H.
    + right; left; exact H.
    + right; right; exact H.
  - intros [H | [H | H]]; symmetry in H.
    + left; exact H.
    + right; left; exact H.
    + right; right; left; exact H.
Qed.

Lemma stage_is_not_ask_name (st : option stage) :
  negb (stage_is st ask_name) = true <-> st <> Some ask_name.
Proof.
  destruct st as [[]|]; cbn [stage_is stage_eqb negb]; split;
    congruence || discriminate || auto.
Qed.

(** A greeting is neither a refusal nor a request for one more poem: the
    tests of the stage rules are closed computations on the three phrases. *)
Lemma greeting_not_decline (s : str) :
  mem s greetings = true ->
  offer_declines s = false /\ after_declines s = false /\ asks_more s = false.
Proof.
  intros H. apply mem_greetings in H.
  destruct H as [-> | [-> | ->]]; vm_compute; auto.
Qed.

(** ** The head of [handle_dialog_message] *)

Section Head.
Variable lower : str -> str.
Variable db : Database.
Variable openai_model : str.

Let handle := handle_dialog_message lower db openai_model.

Lemma handle_bound e msg d a author :
  bound db d a author ->
  handle e (Some msg) d =
  prepend [Db_get_author a]
    (if is_greeting (lower (text_of msg)) (dialog_stage d)
     then {| value := Ret tt;
             data := setdefault_poems_used (set_stage ask_name d);
             calls := [Reply_text Msg.greeting] |}
     else stage_rules lower db openai_model e (dialog_stage d) a author
            (text_of msg) (lower (text_of msg)) d).
Proof.
  intros (Hid & Hnz & Hget).
  unfold handle, handle_dialog_message, bind, get, emit, prepend, text_of.
  cbn [value data calls]. rewrite Hid.
  destruct (Z.eqb_spec a 0) as [E | _]; [contradiction|].
  cbn [value data calls]. rewrite Hget.
  destruct (is_greeting _ _); reflexivity.
Qed.

End Head.

(** ** The stage rules *)

Lemma not_greeting_in_ask_name (s : str) :
  is_greeting s (Some ask_name) = false.
Proof. unfold is_greeting. simpl. apply andb_false_r. Qed.

Lemma not_greeting_when_declining (s : str) (st : option stage) :
  offer_declines s = true \/ after_declines s = true ->
  is_greeting s st = false.
Proof.
  intros H. unfold is_greeting.
  destruct (mem s greetings) eqn:G; [|reflexivity].
  destruct (greeting_not_decline s G) as (H1 & H2 & _).
  destruct H as [H | H]; congruence.
Qed.

(** C7.  In the stage where the name is asked, an input that is empty or
    only whitespace gets the request to repeat the name and nothing else:
    the session data (stage and stored user name included) is what it
    was. *)
Theorem C7_blank_name_is_asked_again
    (lower : str -> str) (db : Database) (openai_model : str) (e : env)
    (msg : message) (d : user_data) (a : Z) (author : Author.t) :
  bound db d a author ->
  dialog_stage d = Some ask_name ->
  strip (text_of msg) = [] ->
  let o := handle_dialog_message lower db openai_model e (Some msg) d in
  value o = Ret tt
  /\ calls o = [Db_get_author a; Reply_text Msg.name_not_heard]
  /\ data o = d
  /\ dialog_stage (data o) = Some ask_name
  /\ user_name (data o) = user_name d.
Proof.
  intros Hb Hst Hblank o. subst o.
  rewrite (handle_bound lower openai_model e msg Hb).
  rewrite Hst, not_greeting_in_ask_name.
  unfold stage_rules, ask_name_rules, prepend, reply_text, emit.
  cbn [stage_is stage_eqb value data calls]. rewrite Hblank.
  cbn [truthy negb value data calls app]. auto.
Qed.

Lemma C7_witness :
  bound Sample.db (Sample.in_stage ask_name []) 1 Sample.pushkin
  /\ strip (u "   ") = []
  /\ data (Sample.handle (Sample.turn 0 (Sample.answers []))
             (u "   ") (Sample.in_stage ask_name []))
     = Sample.in_stage ask_name [].
Proof.
  assert (Hb : bound Sample.db (Sample.in_stage ask_name []) 1 Sample.pushkin).
  { repeat split. discriminate. }
  split; [exact Hb|]. split; [reflexivity|].
  exact (proj1 (proj2 (proj2
    (@C7_blank_name_is_asked_again lower_ru Sample.db Sample.model
       (Sample.turn 0 (Sample.answers []))
       {| message_text := Some (u "   ") |}
       (Sample.in_stage ask_name []) 1 Sample.pushkin
       Hb eq_refl eq_refl)))).
Defined.

(** C3 (as amended).  Outside the stage where the name is asked, a greeting
    phrase gets the scripted greeting with the request for the name and
    moves the stage to [ask_name]; the list of poems already used is
    created empty when the session has none and is otherwise kept with its
    titles. *)
Theorem C3_greeting_asks_the_name
    (lower : str -> str) (db : Database) (openai_model : str) (e : env)
    (msg : message) (d : user_data) (a : Z) (author : Author.t) :
  bound db d a author ->
  dialog_stage d <> Some ask_name ->
  mem (lower (text_of msg)) greetings = true ->
  let o := handle_dialog_message lower db openai_model e (Some msg) d in
  value o = Ret tt
  /\ calls o = [Db_get_author a; Reply_text Msg.greeting]
  /\ dialog_stage (data o) = Some ask_name
  /\ poems_used (data o) = Some (get_poems_used d)
  /\ user_name (data o) = user_name d
  /\ dialog_author_id (data o) = dialog_author_id d.
Proof.
  intros Hb Hst Hg o. subst o.
  rewrite (handle_bound lower openai_model e msg Hb).
  assert (G : is_greeting (lower (text_of msg)) (dialog_stage d) = true).
  { unfold is_greeting. rewrite Hg. cbn [andb].
    now apply stage_is_not_ask_name. }
  rewrite G. unfold prepend, setdefault_poems_used, get_poems_used.
  destruct d as [ai an st pu un].
  cbn [value data calls app set_stage poems_used].
  destruct pu; repeat split; reflexivity.
Qed.

Lemma C3_witness :
  bound Sample.db (Sample.in_stage offer_poem []) 1 Sample.pushkin
  /\ Some offer_poem <> Some ask_name
  /\ mem (lower_ru (u "Привет")) greetings = true
  /\ dialog_stage
       (data (Sample.handle (Sample.turn 0 (Sample.answers []))
                (u "Привет") (Sample.in_stage offer_poem [])))
     = Some ask_name.
Proof.
  assert (Hb : bound Sample.db (Sample.in_stage offer_poem []) 1 Sample.pushkin).
  { repeat split. discriminate. }
  assert (Hs : Some offer_poem <> Some ask_name) by discriminate.
  split; [exact Hb|]. split; [exact Hs|]. split; [reflexivity|].
  exact (proj1 (proj2 (proj2
    (@C3_greeting_asks_the_name lower_ru Sample.db Sample.model
       (Sample.turn 0 (Sample.answers []))
       {| message_text := Some (u "Привет") |}
       (Sample.in_stage offer_poem []) 1 Sample.pushkin
       Hb Hs eq_refl)))).
Defined.

(** C3 as the specification states it fails: after a poem was delivered, the
    greeting moves the stage to [ask_name] and the list of used poems still
    holds the delivered title. *)
Lemma C3_counterexample :
  dialog_stage (Sample.in_stage after_poem [u "Узник"]) <> Some ask_name
  /\ mem (lower_ru (u "привет")) greetings = true
  /\ dialog_stage
       (data (Sample.handle (Sample.turn 0 (Sample.answers []))
                (u "привет") (Sample.in_stage after_poem [u "Узник"])))
     = Some ask_name
  /\ poems_used
       (data (Sample.handle (Sample.turn 0 (Sample.answers []))
                (u "привет") (Sample.in_stage after_poem [u "Узник"])))
     = Some [u "Узник"]
  /\ get_poems_used
       (data (Sample.handle (Sample.turn 0 (Sample.answers []))
                (u "привет") (Sample.in_stage after_poem [u "Узник"])))
     <> [].
Proof.
  split; [discriminate|]. split; [reflexivity|]. split; [reflexivity|].
  split; [reflexivity|]. vm_compute. discriminate.
Qed.

(** C9.  The greeting rule tests membership of the whole lowercased message
    in the three phrases: it fires exactly when the message equals one of
    them (and the stage is not [ask_name]); every other message, also one
    that contains a greeting next to other characters, goes on to the rules
    of the stage and the resolution chain. *)
Theorem C9_greeting_is_whole_message
    (lower : str -> str) (db : Database) (openai_model : str) (e : env)
    (msg : message) (d : user_data) (a : Z) (author : Author.t) :
  bound db d a author ->
  let o := handle_dialog_message lower db openai_model e (Some msg) d in
  let text_lower := lower (text_of msg) in
  (is_greeting text_lower (dialog_stage d) = true <->
   (text_lower = u "привет" \/ text_lower = u "здравствуй"
    \/ text_lower = u "здравствуйте")
   /\ dialog_stage d <> Some ask_name)
  /\ (is_greeting text_lower (dialog_stage d) = true ->
      calls o = [Db_get_author a; Reply_text Msg.greeting]
      /\ dialog_stage (data o) = Some ask_name)
  /\ (text_lower <> u "привет" -> text_lower <> u "здравствуй" ->
      text_lower <> u "здравствуйте" ->
      o = prepend [Db_get_author a]
            (stage_rules lower db openai_model e (dialog_stage d) a author
               (text_of msg) text_lower d))
  /\ (contains (lower_ru (u "привет!")) (u "привет") = true
      /\ mem (lower_ru (u "привет!")) greetings = false)
  /\ (contains (lower_ru (u "привет, друг")) (u "привет") = true
      /\ mem (lower_ru (u "привет, друг")) greetings = false).
Proof.
  intros Hb o text_lower. subst o text_lower.
  rewrite (handle_bound lower openai_model e msg Hb).
  split; [|split; [|split]].
  - unfold is_greeting.
    rewrite andb_true_iff, mem_greetings, stage_is_not_ask_name. reflexivity.
  - intros G. rewrite G. unfold prepend. cbn [value data calls app].
    split; [reflexivity|].
    unfold setdefault_poems_used.
    destruct (poems_used (set_stage ask_name d)); reflexivity.
  - intros N1 N2 N3.
    destruct (is_greeting _ _) eqn:G; [|reflexivity].
    unfold is_greeting in G. apply andb_true_iff in G as [G _].
    apply mem_greetings in G. destruct G as [G | [G | G]]; [elim (N1 G) | elim (N2 G) | elim (N3 G)].
  - repeat split; reflexivity.
Qed.

Lemma C9_witness :
  bound Sample.db (Sample.in_stage offer_poem []) 1 Sample.pushkin
  /\ (is_greeting (lower_ru (u "привет!")) (Some offer_poem) = true <->
      (lower_ru (u "привет!") = u "привет"
       \/ lower_ru (u "привет!") = u "здравствуй"
       \/ lower_ru (u "привет!") = u "здравствуйте")
      /\ Some offer_poem <> Some ask_name).
Proof.
  assert (Hb : bound Sample.db (Sample.in_stage offer_poem []) 1 Sample.pushkin).
  { repeat split. discriminate. }
  split; [exact Hb|].
  exact (proj1
    (@C9_greeting_is_whole_message lower_ru Sample.db Sample.model
       (Sample.turn 0 (Sample.answers []))
       {| message_text := Some (u "привет!") |}
       (Sample.in_stage offer_poem []) 1 Sample.pushkin Hb)).
Defined.

(** C10.  While a poem is offered the refusal is tested first: an input that
    satisfies both the refusal and the acceptance test gets the refusal
    reply, the picker is not called and the session data, its stage
    included, is what it was. *)
Theorem C10_refusal_before_acceptance
    (lower : str -> str) (db : Database) (openai_model : str) (e : env)
    (msg : message) (d : user_data) (a : Z) (author : Author.t) :
  bound db d a author ->
  dialog_stage d = Some offer_poem ->
  offer_declines (lower (text_of msg)) = true ->
  offer_accepts (lower (text_of msg)) = true ->
  let o := handle_dialog_message lower db openai_model e (Some msg) d in
  value o = Ret tt
  /\ calls o = [Db_get_author a; Reply_text Msg.offer_declined]
  /\ existsb is_picker_call (calls o) = false
  /\ data o = d
  /\ dialog_stage (data o) = Some offer_poem.
Proof.
  intros Hb Hst Hd _ o. subst o.
  rewrite (handle_bound lower openai_model e msg Hb).
  rewrite (@not_greeting_when_declining _ _ (or_introl Hd)).
  unfold stage_rules, offer_poem_rules, prepend, reply_text, emit.
  rewrite Hst. cbn [stage_is stage_eqb]. rewrite Hd.
  cbn [value data calls app existsb is_picker_call orb]. auto.
Qed.

Lemma C10_witness :
  bound Sample.db (Sample.in_stage offer_poem []) 1 Sample.pushkin
  /\ offer_declines (lower_ru (u "Нет, хочу")) = true
  /\ offer_accepts (lower_ru (u "Нет, хочу")) = true
  /\ data (Sample.handle (Sample.turn 0 (Sample.answers []))
             (u "Нет, хочу") (Sample.in_stage offer_poem []))
     = Sample.in_stage offer_poem [].
Proof.
  assert (Hb : bound Sample.db (Sample.in_stage offer_poem []) 1 Sample.pushkin).
  { repeat split. discriminate. }
  split; [exact Hb|]. split; [reflexivity|]. split; [reflexivity|].
  exact (proj1 (proj2 (proj2 (proj2
    (@C10_refusal_before_acceptance lower_ru Sample.db Sample.model
       (Sample.turn 0 (Sample.answers []))
       {| message_text := Some (u "Нет, хочу") |}
       (Sample.in_stage offer_poem []) 1 Sample.pushkin
       Hb eq_refl eq_refl eq_refl))))).
Defined.

(** C6 (as amended).  A refusal while a poem is offered, and a refusal after
    a poem that is not at the same time a request for one more poem, get the
    refusal reply of the stage; the picker is not called and the session
    data, its stage included, is what it was. *)
Theorem C6_refusal_keeps_the_stage
    (lower : str -> str) (db : Database) (openai_model : str) (e : env)
    (msg : message) (d : user_data) (a : Z) (author : Author.t) :
  bound db d a author ->
  let o := handle_dialog_message lower db openai_model e (Some msg) d in
  let text_lower := lower (text_of msg) in
  (dialog_stage d = Some offer_poem -> offer_declines text_lower = true ->
   value o = Ret tt
   /\ calls o = [Db_get_author a; Reply_text Msg.offer_declined]
   /\ existsb is_picker_call (calls o) = false
   /\ data o = d)
  /\ (dialog_stage d = Some after_poem -> after_declines text_lower = true ->
      asks_more text_lower = false ->
      value o = Ret tt
      /\ calls o = [Db_get_author a; Reply_text Msg.enough_poems]
      /\ existsb is_picker_call (calls o) = false
      /\ data o = d)
  /\ (after_declines (lower_ru (u "нет, хватит")) = true
      /\ asks_more (lower_ru (u "нет, хватит")) = false).
Proof.
  intros Hb o text_lower. subst o text_lower.
  rewrite (handle_bound lower openai_model e msg Hb).
  split; [|split].
  - intros Hst Hd.
    rewrite (@not_greeting_when_declining _ _ (or_introl Hd)).
    unfold stage_rules, offer_poem_rules, prepend, reply_text, emit.
    rewrite Hst. cbn [stage_is stage_eqb]. rewrite Hd.
    cbn [value data calls app existsb is_picker_call orb]. auto.
  - intros Hst Hd Hm.
    rewrite (@not_greeting_when_declining _ _ (or_intror Hd)).
    unfold stage_rules, after_poem_rules, prepend, reply_text, emit.
    rewrite Hst. cbn [stage_is stage_eqb]. rewrite Hm, Hd.
    cbn [value data calls app existsb is_picker_call orb]. auto.
  - split; reflexivity.
Qed.

Lemma C6_witness :
  bound Sample.db (Sample.in_stage after_poem [u "Узник"]) 1 Sample.pushkin
  /\ after_declines (lower_ru (u "нет, хватит")) = true
  /\ asks_more (lower_ru (u "нет, хватит")) = false
  /\ calls (Sample.handle (Sample.turn 0 (Sample.answers []))
              (u "нет, хватит") (Sample.in_stage after_poem [u "Узник"]))
     = [Db_get_author 1; Reply_text Msg.enough_poems]
  /\ data (Sample.handle (Sample.turn 0 (Sample.answers []))
             (u "нет, хватит") (Sample.in_stage after_poem [u "Узник"]))
     = Sample.in_stage after_poem [u "Узник"].
Proof.
  assert (Hb : bound Sample.db (Sample.in_stage after_poem [u "Узник"]) 1
                 Sample.pushkin).
  { repeat split. discriminate. }
  split; [exact Hb|]. split; [reflexivity|]. split; [reflexivity|].
  destruct (proj1 (proj2
    (@C6_refusal_keeps_the_stage lower_ru Sample.db Sample.model
       (Sample.turn 0 (Sample.answers []))
       {| message_text := Some (u "нет, хватит") |}
       (Sample.in_stage after_poem [u "Узник"]) 1 Sample.pushkin Hb))
    eq_refl eq_refl eq_refl) as (_ & Hc & _ & Hd).
  split; [exact Hc | exact Hd].
Defined.

(** C6 as the specification states it fails after a poem: the request for
    one more poem is tested before the refusal, so a refusal that also
    contains "ещё" and "стих" calls the picker and delivers a poem. *)
Lemma C6_counterexample :
  after_declines (lower_ru (u "нет, не надо ещё стихов")) = true
  /\ existsb is_picker_call
       (calls (Sample.handle (Sample.turn 0 (Sample.answers []))
                 (u "нет, не надо ещё стихов")
                 (Sample.in_stage after_poem [u "Узник"])))
     = true
  /\ sent_texts
       (calls (Sample.handle (Sample.turn 0 (Sample.answers []))
                 (u "нет, не надо ещё стихов")
                 (Sample.in_stage after_poem [u "Узник"])))
     = [render Sample.osen].
Proof. repeat split; reflexivity. Qed.

(** ** The generative fallback adapter *)

Lemma apology_is_not_lost_in_thought (suffix : str) :
  Ai.degraded_apology ++ suffix <> Ai.lost_in_thought.
Proof.
  intros H. apply (f_equal (hd 0%N)) in H. vm_compute in H. discriminate.
Qed.

Section Fallback.
Variable lower : str -> str.
Variable db : Database.
Variable openai_model : str.

(** The turn reaches the resolution chain when no rule of the state machine
    matches. *)
Lemma handle_reaches_chain e msg d a author :
  bound db d a author ->
  short_circuits (dialog_stage d) (lower (text_of msg)) = false ->
  handle_dialog_message lower db openai_model e (Some msg) d =
  prepend [Db_get_author a]
    (resolution_chain lower db openai_model e a author (text_of msg)
       (lower (text_of msg)) d).
Proof.
  intros Hb Hs. rewrite (handle_bound lower openai_model e msg Hb).
  unfold short_circuits in Hs.
  apply orb_false_iff in Hs as [Hs Hafter].
  apply orb_false_iff in Hs as [Hs Hoffer].
  apply orb_false_iff in Hs as [Hg Hask].
  rewrite Hg. unfold stage_rules. rewrite Hask.
  destruct (stage_is (dialog_stage d) offer_poem) eqn:So;
    destruct (stage_is (dialog_stage d) after_poem) eqn:Sa;
    cbn [andb] in Hoffer, Hafter;
    try apply orb_false_iff in Hoffer as [Hod Hoa];
    try apply orb_false_iff in Hafter as [Ham Had];
    unfold offer_poem_rules, after_poem_rules;
    repeat match goal with H : _ = false |- _ => rewrite H; clear H end;
    reflexivity.
Qed.

Lemma chain_falls_back e a author text text_lower d :
  lookups_fail lower db a text_lower ->
  resolution_chain lower db openai_model e a author text text_lower d =
  prepend
    [Db_find_poem_text a text_lower; Db_find_character_insight a text_lower;
     Db_find_faq_answer a text_lower; Db_get_author_works a;
     Ai_generate_reply author (Db.get_author_works db a) text]
    (match Ai.generate_reply openai_model (create e) author
             (Db.get_author_works db a) text with
     | Ret ai_response =>
       {| value := Ret tt; data := d; calls := [Reply_text ai_response] |}
     | Raise x => {| value := Raise x; data := d; calls := [] |}
     end).
Proof.
  intros (Hp & Hl & Hc & Hf).
  unfold resolution_chain, bind, emit, reply_text, raise, prepend.
  cbn [value data calls]. rewrite Hp, Hl, Hc, Hf.
  cbn [Ai.opt_truthy value data calls].
  destruct (Ai.generate_reply _ _ _ _ _); reflexivity.
Qed.

End Fallback.

(** C5 (as amended).  When the provider fails with an [APIError] the adapter
    does not raise: it returns the degraded-mode apology, followed by the
    error code in parentheses when the error carries one.  When the model
    output is empty or blank it returns the "lost in thought" apology, a
    different text.  A turn that ends in the failing adapter sends that
    apology and leaves the session data, the stage included, as it was. *)
Theorem C5_adapter_answers_provider_failure
    (lower : str -> str) (db : Database) (openai_model : str) (e : env)
    (msg : message) (d : user_data) (a : Z) (author : Author.t)
    (code : option str) :
  bound db d a author ->
  short_circuits (dialog_stage d) (lower (text_of msg)) = false ->
  lookups_fail lower db a (lower (text_of msg)) ->
  create e (Ai.request_for openai_model author (Db.get_author_works db a)
              (text_of msg)) = Raise (APIError code) ->
  let o := handle_dialog_message lower db openai_model e (Some msg) d in
  (value o = Ret tt
   /\ sent_texts (calls o) = [Ai.degraded_apology ++ Ai.code_note code]
   /\ data o = d
   /\ dialog_stage (data o) = dialog_stage d)
  /\ (forall model provider who ws user_message err,
        provider (Ai.request_for model who ws user_message)
        = Raise (APIError err) ->
        Ai.generate_reply model provider who ws user_message
        = Ret (Ai.degraded_apology ++ Ai.code_note err))
  /\ (forall model provider who ws user_message response,
        provider (Ai.request_for model who ws user_message) = Ret response ->
        strip (match Ai.output_text response with Some t => t | None => [] end)
        = [] ->
        Ai.generate_reply model provider who ws user_message
        = Ret Ai.lost_in_thought)
  /\ (forall err, Ai.degraded_apology ++ Ai.code_note err <> Ai.lost_in_thought).
Proof.
  intros Hb Hs Hl Hc o. subst o.
  assert (Herr : forall model provider who ws user_message err,
             provider (Ai.request_for model who ws user_message)
             = Raise (APIError err) ->
             Ai.generate_reply model provider who ws user_message
             = Ret (Ai.degraded_apology ++ Ai.code_note err)).
  { intros model provider who ws m err H. unfold Ai.generate_reply.
    now rewrite H. }
  split; [|split; [exact Herr|split]].
  - rewrite (@handle_reaches_chain lower db openai_model e msg d a author Hb Hs).
    rewrite (@chain_falls_back lower db openai_model e a author (text_of msg) _ d Hl).
    rewrite (Herr _ _ _ _ _ _ Hc). unfold prepend.
    cbn [value data calls app sent_texts]. auto.
  - intros model provider who ws m response H Hblank.
    unfold Ai.generate_reply. rewrite H, Hblank. reflexivity.
  - intros err. apply apology_is_not_lost_in_thought.
Qed.

Lemma C5_witness :
  bound Sample.db (Sample.in_stage after_poem []) 1 Sample.pushkin
  /\ short_circuits (Some after_poem) (lower_ru (u "Кто вы?")) = false
  /\ lookups_fail lower_ru Sample.db 1 (lower_ru (u "Кто вы?"))
  /\ sent_texts
       (calls (Sample.handle (Sample.turn 0 (Sample.fails (Some (u "429"))))
                 (u "Кто вы?") (Sample.in_stage after_poem [])))
     = [Ai.degraded_apology ++ Ai.code_note (Some (u "429"))]
  /\ data (Sample.handle (Sample.turn 0 (Sample.fails (Some (u "429"))))
             (u "Кто вы?") (Sample.in_stage after_poem []))
     = Sample.in_stage after_poem [].
Proof.
  assert (Hb : bound Sample.db (Sample.in_stage after_poem []) 1 Sample.pushkin).
  { repeat split. discriminate. }
  assert (Hs : short_circuits (Some after_poem) (lower_ru (u "Кто вы?")) = false)
    by (vm_compute; reflexivity).
  assert (Hl : lookups_fail lower_ru Sample.db 1 (lower_ru (u "Кто вы?")))
    by (repeat split; vm_compute; reflexivity).
  split; [exact Hb|]. split; [exact Hs|]. split; [exact Hl|].
  destruct (proj1
    (@C5_adapter_answers_provider_failure lower_ru Sample.db Sample.model
       (Sample.turn 0 (Sample.fails (Some (u "429"))))
       {| message_text := Some (u "Кто вы?") |}
       (Sample.in_stage after_poem []) 1 Sample.pushkin (Some (u "429"))
       Hb Hs Hl eq_refl)) as (_ & Ht & Hd & _).
  split; [exact Ht | exact Hd].
Defined.

(** C5 as the specification states it fails: the reply to a provider error is
    not one fixed text, two provider errors get different replies. *)
Lemma C5_counterexample :
  Ai.generate_reply Sample.model (Sample.fails (Some (u "429")))
    Sample.pushkin [] (u "Кто вы?")
  = Ret (Ai.degraded_apology ++ u " (код ошибки 429)")
  /\ Ai.generate_reply Sample.model (Sample.fails None)
       Sample.pushkin [] (u "Кто вы?")
     = Ret Ai.degraded_apology
  /\ Ai.generate_reply Sample.model (Sample.fails (Some (u "429")))
       Sample.pushkin [] (u "Кто вы?")
     <> Ai.generate_reply Sample.model (Sample.fails None)
          Sample.pushkin [] (u "Кто вы?").
Proof.
  split; [vm_compute; reflexivity|]. split; [vm_compute; reflexivity|].
  vm_compute. discriminate.
Qed.

(** ** The resolution chain *)

Section Chain.
Variable lower : str -> str.
Variable db : Database.
Variable openai_model : str.

Lemma poem_text_truthy a t p :
  Db.find_poem_text lower db a t = Some p -> Ai.opt_truthy (Some p) = true.
Proof.
  unfold Db.find_poem_text. destruct (List.find _ _) as [row|]; [|discriminate].
  cbn [option_map]. intros H. injection H as <-.
  destruct (Poem.title row); reflexivity.
Qed.

Lemma character_insight_truthy a t c :
  Db.find_character_insight lower db a t = Some c ->
  Ai.opt_truthy (Some c) = true.
Proof.
  unfold Db.find_character_insight.
  destruct (List.find _ _) as [row|]; [|discriminate].
  cbn [option_map]. intros H. injection H as <-.
  destruct (Character.name row); [vm_compute|]; reflexivity.
Qed.

Lemma chain_keeps_data e a author text text_lower d :
  data (resolution_chain lower db openai_model e a author text text_lower d)
  = d.
Proof.
  unfold resolution_chain, bind, emit, reply_text, raise.
  cbn [value data calls].
  repeat match goal with
         | |- context [if ?b then _ else _] => destruct b; cbn [value data calls]
         | |- context [match ?x with Ret _ => _ | Raise _ => _ end] =>
           destruct x; cbn [value data calls]
         end; reflexivity.
Qed.

End Chain.

(** C1 (as amended).  When no rule of the state machine answers the turn,
    the steps are tried on the lowercased message in this order: poem text
    lookup, request for the list of poems, character lookup, FAQ lookup.
    The reply of the first step that has one is sent and no later step is
    called; an FAQ entry whose stored answer is empty gives no reply.  When
    no step has a reply the adapter is called with the author, the grouped
    works and the message as received, and the text it returns is sent as it
    is.  The session data is not changed. *)
Theorem C1_chain_order
    (lower : str -> str) (db : Database) (openai_model : str) (e : env)
    (msg : message) (d : user_data) (a : Z) (author : Author.t) :
  bound db d a author ->
  short_circuits (dialog_stage d) (lower (text_of msg)) = false ->
  let o := handle_dialog_message lower db openai_model e (Some msg) d in
  let text_lower := lower (text_of msg) in
  let poem := Db.find_poem_text lower db a text_lower in
  let listing :=
    contains text_lower (u "расскажи") && contains text_lower (u "стих") in
  let character := Db.find_character_insight lower db a text_lower in
  let faq_answer := Db.find_faq_answer lower db a text_lower in
  let ws := Db.get_author_works db a in
  data o = d
  /\ (forall p, poem = Some p ->
      value o = Ret tt
      /\ calls o = [Db_get_author a; Db_find_poem_text a text_lower;
                    Reply_text p])
  /\ (poem = None -> listing = true ->
      value o = Ret tt
      /\ calls o = [Db_get_author a; Db_find_poem_text a text_lower;
                    Db_get_poem_titles a;
                    Reply_text
                      (Msg.poem_list (join (u ", ") (Db.get_poem_titles db a)))])
  /\ (poem = None -> listing = false -> forall c, character = Some c ->
      value o = Ret tt
      /\ calls o = [Db_get_author a; Db_find_poem_text a text_lower;
                    Db_find_character_insight a text_lower; Reply_text c])
  /\ (poem = None -> listing = false -> character = None ->
      forall answer, faq_answer = Some answer -> answer <> [] ->
      value o = Ret tt
      /\ calls o = [Db_get_author a; Db_find_poem_text a text_lower;
                    Db_find_character_insight a text_lower;
                    Db_find_faq_answer a text_lower; Reply_text answer])
  /\ (poem = None -> listing = false -> character = None ->
      faq_answer = None \/ faq_answer = Some [] ->
      calls o =
        [Db_get_author a; Db_find_poem_text a text_lower;
         Db_find_character_insight a text_lower;
         Db_find_faq_answer a text_lower; Db_get_author_works a;
         Ai_generate_reply author ws (text_of msg)]
        ++ match Ai.generate_reply openai_model (create e) author ws
                   (text_of msg) with
           | Ret ai_response => [Reply_text ai_response]
           | Raise _ => []
           end
      /\ value o =
         match Ai.generate_reply openai_model (create e) author ws
                 (text_of msg) with
         | Ret _ => Ret tt
         | Raise x => Raise x
         end).
Proof.
  intros Hb Hs o text_lower poem listing character faq_answer ws.
  subst o. rewrite (@handle_reaches_chain lower db openai_model e msg d a author Hb Hs).
  fold text_lower. split; [|split; [|split; [|split; [|split]]]].
  - unfold prepend. cbn [data]. apply chain_keeps_data.
  - intros p Hp.
    pose proof (poem_text_truthy _ _ _ _ Hp) as Ht.
    unfold resolution_chain, prepend, bind, emit, reply_text.
    cbn [value data calls]. fold poem. rewrite Hp, Ht.
    cbn [value data calls app]. auto.
  - intros Hp Hl.
    unfold resolution_chain, prepend, bind, emit, reply_text.
    cbn [value data calls]. fold poem listing. rewrite Hp, Hl.
    cbn [Ai.opt_truthy value data calls app]. auto.
  - intros Hp Hl c Hc.
    pose proof (character_insight_truthy _ _ _ _ Hc) as Ht.
    unfold resolution_chain, prepend, bind, emit, reply_text.
    cbn [value data calls]. fold poem listing character. rewrite Hp, Hl, Hc, Ht.
    cbn [Ai.opt_truthy value data calls app]. auto.
  - intros Hp Hl Hc answer Hf Hne.
    unfold resolution_chain, prepend, bind, emit, reply_text.
    cbn [value data calls]. fold poem listing character faq_answer.
    rewrite Hp, Hl, Hc, Hf.
    destruct answer as [|x answer]; [now elim Hne|].
    cbn [Ai.opt_truthy truthy value data calls app]. auto.
  - intros Hp Hl Hc Hf.
    assert (Hfail : lookups_fail lower db a text_lower).
    { repeat split; try assumption. fold faq_answer.
      destruct Hf as [-> | ->]; reflexivity. }
    rewrite (@chain_falls_back lower db openai_model e a author (text_of msg)
               text_lower d Hfail).
    fold ws. unfold prepend.
    destruct (Ai.generate_reply _ _ _ _ _); cbn [value data calls app]; auto.
Qed.

Lemma C1_witness :
  bound Sample.db (Sample.in_stage after_poem []) 1 Sample.pushkin
  /\ short_circuits (Some after_poem) (lower_ru (u "Расскажи про Узник")) = false
  /\ calls (handle_dialog_message lower_ru Sample.db Sample.model
              (Sample.turn 0 (Sample.answers (u "Извольте.")))
              (Some {| message_text := Some (u "Расскажи про Узник") |})
              (Sample.in_stage after_poem []))
     = [Db_get_author 1;
        Db_find_poem_text 1
          (lower_ru (text_of {| message_text := Some (u "Расскажи про Узник") |}));
        Reply_text (render Sample.uznik)].
Proof.
  assert (Hb : bound Sample.db (Sample.in_stage after_poem []) 1 Sample.pushkin).
  { repeat split. discriminate. }
  assert (Hs : short_circuits (Some after_poem)
                 (lower_ru (u "Расскажи про Узник")) = false)
    by (vm_compute; reflexivity).
  split; [exact Hb|]. split; [exact Hs|].
  pose proof
    (@C1_chain_order lower_ru Sample.db Sample.model
       (Sample.turn 0 (Sample.answers (u "Извольте.")))
       {| message_text := Some (u "Расскажи про Узник") |}
       (Sample.in_stage after_poem []) 1 Sample.pushkin Hb Hs) as H.
  cbv zeta in H. destruct H as (_ & Hp & _).
  assert (Hf : Db.find_poem_text lower_ru Sample.db 1
                 (lower_ru (text_of {| message_text :=
                                         Some (u "Расскажи про Узник") |}))
               = Some (render Sample.uznik))
    by (vm_compute; reflexivity).
  destruct (Hp _ Hf) as [_ Hc]. exact Hc.
Defined.

(** C1 as the specification states it fails: the FAQ lookup matches the
    keyword of an entry whose stored answer is empty, and the turn still
    goes on to the adapter and sends the generated text. *)
Lemma C1_counterexample :
  short_circuits (Some after_poem) (lower_ru (u "дуэль")) = false
  /\ Db.any_keyword [u "дуэль"] (lower_ru (lower_ru (u "дуэль"))) = true
  /\ Db.find_faq_answer lower_ru Sample.db_blank_faq 1 (lower_ru (u "дуэль"))
     = Some []
  /\ existsb is_adapter_call
       (calls (handle_dialog_message lower_ru Sample.db_blank_faq Sample.model
                 (Sample.turn 0 (Sample.answers (u "Извольте.")))
                 (Sample.says (u "дуэль")) (Sample.in_stage after_poem [])))
     = true
  /\ sent_texts
       (calls (handle_dialog_message lower_ru Sample.db_blank_faq Sample.model
                 (Sample.turn 0 (Sample.answers (u "Извольте.")))
                 (Sample.says (u "дуэль")) (Sample.in_stage after_poem [])))
     = [u "Извольте."].
Proof. repeat split; vm_compute; reflexivity. Qed.

(** ** Name capture *)

Lemma skipn_tl (A : Type) (n : nat) (l : list A) :
  skipn n (tl l) = skipn (S n) l.
Proof. destruct l; [now destruct n | reflexivity]. Qed.

Lemma find_after_phrase (phrase low s : str) (i : nat) :
  find low phrase = Some i ->
  after_phrase low s phrase = skipn (i + List.length phrase) s.
Proof.
  revert s i. induction low as [|c low IH]; intros s i.
  - cbn [find after_phrase]. destruct (startswith [] phrase); [|discriminate].
    intros H. injection H as <-. reflexivity.
  - cbn [find after_phrase]. destruct (startswith (c :: low) phrase).
    + intros H. injection H as <-. reflexivity.
    + destruct (find low phrase) as [j|] eqn:F; [|discriminate].
      cbn [option_map]. intros H. injection H as <-.
      rewrite (IH (tl s) j eq_refl). apply skipn_tl.
Qed.

Lemma lstrip_head (p : N -> bool) (s : str) (c : N) (t : str) :
  lstrip_by p s = c :: t -> p c = false.
Proof.
  induction s as [|x s IH]; [discriminate|].
  cbn [lstrip_by]. destruct (p x) eqn:E; [exact IH|].
  intros H. injection H as <- _. exact E.
Qed.

Lemma split_lstrip (s : str) : split s = split (lstrip_by isspace s).
Proof.
  unfold split. induction s as [|c s IH]; [reflexivity|].
  cbn [lstrip_by split_from]. destruct (isspace c) eqn:E; [exact IH|].
  cbn [split_from]. now rewrite E.
Qed.

(** Reading a word: [split_from] with a word in progress, or at the first
    character of a word, gives that word and goes on after it. *)
Lemma split_from_word (s cur : str) :
  cur <> [] \/ (exists c t, s = c :: t /\ isspace c = false) ->
  split_from cur s =
  (rev cur ++ fst (span_word s)) :: split_from [] (snd (span_word s)).
Proof.
  revert cur. induction s as [|c s IH]; intros cur H.
  - destruct H as [H | (c & t & H & _)]; [|discriminate].
    cbn [split_from span_word fst snd]. rewrite app_nil_r.
    destruct cur; [now elim H | reflexivity].
  - cbn [split_from span_word]. destruct (isspace c) eqn:E.
    + destruct H as [H | (c' & t & H & E')];
        [|injection H as -> _; congruence].
      cbn [fst snd]. rewrite app_nil_r.
      destruct cur; [now elim H|].
      cbn [split_from]. now rewrite E.
    + rewrite (IH (c :: cur)) by (left; discriminate).
      destruct (span_word s) as [w r]. cbn [fst snd rev].
      now rewrite <- app_assoc.
Qed.

Lemma split_first_word (s : str) (c : N) (t : str) :
  lstrip_by isspace s = c :: t ->
  split s = fst (span_word (c :: t)) :: split (snd (span_word (c :: t))).
Proof.
  intros H. rewrite split_lstrip, H. unfold split.
  rewrite split_from_word; [reflexivity|].
  right. exists c, t. split; [reflexivity|]. exact (lstrip_head _ _ H).
Qed.

Lemma split_blank (s : str) : lstrip_by isspace s = [] -> split s = [].
Proof. intros H. now rewrite split_lstrip, H. Qed.

(** The second item of [split(maxsplit=2)] is the second word. *)
Lemma split_max_second (s : str) :
  match split_max 2 s with _ :: second :: _ => Some second | _ => None end
  = nth_error (split s) 1.
Proof.
  cbn [split_max]. destruct (lstrip_by isspace s) as [|c t] eqn:L.
  - now rewrite (split_blank _ L).
  - rewrite (split_first_word _ L).
    destruct (span_word (c :: t)) as [w r]. cbn [fst snd nth_error].
    destruct (lstrip_by isspace r) as [|c' t'] eqn:L'.
    + now rewrite (split_blank _ L').
    + rewrite (split_first_word _ L').
      destruct (span_word (c' :: t')) as [w' r']. reflexivity.
Qed.

(** The candidate of the handler is the candidate of the specification. *)
Lemma name_candidate_spec (lower : str -> str) (input : str) :
  name_candidate lower (strip input) = spec_candidate lower input.
Proof.
  unfold name_candidate, spec_candidate, contains.
  destruct (find (lower (strip input)) menya_zovut) as [i|] eqn:F.
  - now rewrite (@find_after_phrase _ _ (strip input) _ F).
  - destruct (startswith (lower (strip input)) (u "меня")); [|reflexivity].
    cbn [andb]. pose proof (split_max_second (strip input)) as H.
    destruct (split (strip input)) as [|w1 [|w2 ws]];
      cbn [nth_error List.length Nat.leb nth] in *;
      destruct (split_max 2 (strip input)) as [|x [|y l]];
      try discriminate; try reflexivity.
    now injection H.
Qed.

(** ** The random poem picker *)

Section Picker.
Variable db : Database.

Lemma eligible_unused (used : list str) (rows : list Poem.t) :
  filter (Db.eligible (Some used)) rows = unused used rows.
Proof.
  unfold unused. apply filter_ext. intros row. unfold Db.eligible.
  destruct used; reflexivity.
Qed.

Lemma eligible_all (rows : list Poem.t) :
  filter (Db.eligible None) rows = rows.
Proof.
  induction rows as [|row rows IH]; [reflexivity|].
  cbn [filter Db.eligible negb orb]. now rewrite IH.
Qed.

Lemma choice_in (A : Type) (r : nat) (x : A) (l : list A) :
  In (Db.choice r x (x :: l)) (x :: l).
Proof.
  unfold Db.choice. apply nth_In. apply Nat.mod_upper_bound. discriminate.
Qed.

Lemma get_random_poem_none a ex r :
  Db.get_random_poem db a ex r = None <->
  filter (Db.eligible ex) (Db.poem_rows db a) = [].
Proof.
  unfold Db.get_random_poem.
  destruct (filter (Db.eligible ex) (Db.poem_rows db a)); cbn [map];
    split; congruence.
Qed.

Lemma get_random_poem_some a ex r p :
  Db.get_random_poem db a ex r = Some p ->
  exists row, In row (filter (Db.eligible ex) (Db.poem_rows db a))
              /\ p = as_dict row.
Proof.
  unfold Db.get_random_poem.
  destruct (filter (Db.eligible ex) (Db.poem_rows db a)) as [|row0 l];
    [discriminate|].
  cbn [map]. intros H. injection H as <-.
  pose proof (choice_in r (as_dict row0) (map as_dict l)) as Hin.
  change (as_dict row0 :: map as_dict l) with (map as_dict (row0 :: l)) in Hin.
  apply in_map_iff in Hin as (row & Hrow & Hin).
  exists row. split; [exact Hin | now symmetry].
Qed.

(** The three ways [_send_random_poem] ends. *)
Lemma send_cases (r : nat) (author : Author.t) (d : user_data) :
  let a := Author.id author in
  let used := get_poems_used d in
  let o := _send_random_poem db r author d in
  (exists row, In row (unused used (Db.poem_rows db a))
     /\ o = {| value := Ret true;
               data := set_poems_used (used ++ [Poem.title row]) d;
               calls := [Db_get_random_poem a (Some used);
                         Reply_text (render row)] |})
  \/ (unused used (Db.poem_rows db a) = []
      /\ exists row, In row (Db.poem_rows db a)
         /\ o = {| value := Ret true;
                   data := set_poems_used [Poem.title row] d;
                   calls := [Db_get_random_poem a (Some used);
                             Db_get_random_poem a None;
                             Reply_text (render row)] |})
  \/ (Db.poem_rows db a = []
      /\ o = {| value := Ret false;
                data := set_poems_used [] d;
                calls := [Db_get_random_poem a (Some used);
                          Db_get_random_poem a None;
                          Reply_text Msg.no_poems] |}).
Proof.
  intros a used o. subst o.
  unfold _send_random_poem, bind, get, emit, modify, deliver, reply_text, ret.
  cbn [value data calls]. fold a used.
  destruct (Db.get_random_poem db a (Some used) r) as [p|] eqn:P1.
  - left. apply get_random_poem_some in P1 as (row & Hin & ->).
    rewrite eligible_unused in Hin. exists row. split; [exact Hin|].
    reflexivity.
  - apply get_random_poem_none in P1. rewrite eligible_unused in P1.
    right. cbn [value data calls].
    destruct (Db.get_random_poem db a None r) as [p|] eqn:P2.
    + left. split; [exact P1|].
      apply get_random_poem_some in P2 as (row & Hin & ->).
      rewrite eligible_all in Hin. exists row. split; [exact Hin|].
      reflexivity.
    + right. apply get_random_poem_none in P2. rewrite eligible_all in P2.
      split; [exact P2 | reflexivity].
Qed.

End Picker.

(** X1.  [_send_random_poem] reports failure exactly when the author has no
    poem at all; it then sends the "no poems" text and leaves the list of
    used titles empty. *)
Theorem send_fails_only_without_poems
    (db : Database) (r : nat) (author : Author.t) (d : user_data) :
  let o := _send_random_poem db r author d in
  (value o = Ret false <-> Db.poem_rows db (Author.id author) = [])
  /\ (value o = Ret false ->
      sent_texts (calls o) = [Msg.no_poems]
      /\ poems_used (data o) = Some []).
Proof.
  intros o. subst o.
  destruct (send_cases db r author d)
    as [(row & Hin & ->) | [(Hex & row & Hin & ->) | (Hnone & ->)]];
    cbn [value data calls sent_texts set_poems_used poems_used].
  - split; [|discriminate].
    split; [discriminate|]. intros E. unfold unused in Hin.
    apply filter_In in Hin as [Hin _]. rewrite E in Hin. destruct Hin.
  - split; [|discriminate].
    split; [discriminate|]. intros E. rewrite E in Hin. destruct Hin.
  - split; [|auto]. split; auto.
Qed.

(** X2.  When the author has a poem whose title is not yet used, the poem
    delivered is such a poem: one picker call is made, the message is the
    title, an empty line and the text, and the title is added at the end of
    the used titles. *)
Theorem send_delivers_an_unused_poem
    (db : Database) (r : nat) (author : Author.t) (d : user_data) :
  unused (get_poems_used d) (Db.poem_rows db (Author.id author)) <> [] ->
  exists row,
    In row (Db.poem_rows db (Author.id author))
    /\ mem (Poem.title row) (get_poems_used d) = false
    /\ value (_send_random_poem db r author d) = Ret true
    /\ calls (_send_random_poem db r author d)
       = [Db_get_random_poem (Author.id author) (Some (get_poems_used d));
          Reply_text (Poem.title row ++ nl2 ++ Poem.text row)]
    /\ poems_used (data (_send_random_poem db r author d))
       = Some (get_poems_used d ++ [Poem.title row]).
Proof.
  intros Hne.
  destruct (send_cases db r author d)
    as [(row & Hin & ->) | [(Hex & _) | (Hnone & _)]].
  - exists row. unfold unused in Hin. apply filter_In in Hin as [Hin Hm].
    apply negb_true_iff in Hm. cbn [value data calls]. auto.
  - contradiction.
  - rewrite Hnone in Hne. now elim Hne.
Qed.

Lemma send_delivers_an_unused_poem_witness :
  unused (get_poems_used (Sample.in_stage after_poem [u "Узник"]))
    (Db.poem_rows Sample.db (Author.id Sample.pushkin)) <> []
  /\ exists row,
    In row (Db.poem_rows Sample.db (Author.id Sample.pushkin))
    /\ mem (Poem.title row)
         (get_poems_used (Sample.in_stage after_poem [u "Узник"])) = false
    /\ value (_send_random_poem Sample.db 0 Sample.pushkin
                (Sample.in_stage after_poem [u "Узник"])) = Ret true
    /\ calls (_send_random_poem Sample.db 0 Sample.pushkin
                (Sample.in_stage after_poem [u "Узник"]))
       = [Db_get_random_poem (Author.id Sample.pushkin)
            (Some (get_poems_used (Sample.in_stage after_poem [u "Узник"])));
          Reply_text (Poem.title row ++ nl2 ++ Poem.text row)]
    /\ poems_used (data (_send_random_poem Sample.db 0 Sample.pushkin
                           (Sample.in_stage after_poem [u "Узник"])))
       = Some (get_poems_used (Sample.in_stage after_poem [u "Узник"])
               ++ [Poem.title row]).
Proof.
  assert (H : unused (get_poems_used (Sample.in_stage after_poem [u "Узник"]))
                (Db.poem_rows Sample.db (Author.id Sample.pushkin)) <> [])
    by (vm_compute; discriminate).
  split; [exact H|].
  exact (@send_delivers_an_unused_poem Sample.db 0 Sample.pushkin
           (Sample.in_stage after_poem [u "Узник"]) H).
Defined.

(** X3.  When every poem of the author is already used, the list of used
    titles is emptied, a second picker call without exclusions is made, and
    a poem of the author is delivered; afterwards the list holds that title
    alone. *)
Theorem send_starts_over_when_exhausted
    (db : Database) (r : nat) (author : Author.t) (d : user_data) :
  Db.poem_rows db (Author.id author) <> [] ->
  unused (get_poems_used d) (Db.poem_rows db (Author.id author)) = [] ->
  exists row,
    In row (Db.poem_rows db (Author.id author))
    /\ value (_send_random_poem db r author d) = Ret true
    /\ calls (_send_random_poem db r author d)
       = [Db_get_random_poem (Author.id author) (Some (get_poems_used d));
          Db_get_random_poem (Author.id author) None;
          Reply_text (Poem.title row ++ nl2 ++ Poem.text row)]
    /\ poems_used (data (_send_random_poem db r author d))
       = Some [Poem.title row].
Proof.
  intros Hrows Hex.
  destruct (send_cases db r author d)
    as [(row & Hin & _) | [(_ & row & Hin & ->) | (Hnone & _)]].
  - rewrite Hex in Hin. destruct Hin.
  - exists row. cbn [value data calls]. auto.
  - contradiction.
Qed.

Lemma send_starts_over_when_exhausted_witness :
  Db.poem_rows Sample.db (Author.id Sample.pushkin) <> []
  /\ unused (get_poems_used (Sample.in_stage after_poem [u "Узник"; u "Осень"]))
       (Db.poem_rows Sample.db (Author.id Sample.pushkin)) = []
  /\ exists row,
    In row (Db.poem_rows Sample.db (Author.id Sample.pushkin))
    /\ value (_send_random_poem Sample.db 1 Sample.pushkin
                (Sample.in_stage after_poem [u "Узник"; u "Осень"])) = Ret true
    /\ calls (_send_random_poem Sample.db 1 Sample.pushkin
                (Sample.in_stage after_poem [u "Узник"; u "Осень"]))
       = [Db_get_random_poem (Author.id Sample.pushkin)
            (Some (get_poems_used
                     (Sample.in_stage after_poem [u "Узник"; u "Осень"])));
          Db_get_random_poem (Author.id Sample.pushkin) None;
          Reply_text (Poem.title row ++ nl2 ++ Poem.text row)]
    /\ poems_used (data (_send_random_poem Sample.db 1 Sample.pushkin
                           (Sample.in_stage after_poem [u "Узник"; u "Осень"])))
       = Some [Poem.title row].
Proof.
  assert (H1 : Db.poem_rows Sample.db (Author.id Sample.pushkin) <> [])
    by (vm_compute; discriminate).
  assert (H2 : unused (get_poems_used
                         (Sample.in_stage after_poem [u "Узник"; u "Осень"]))
                 (Db.poem_rows Sample.db (Author.id Sample.pushkin)) = [])
    by (vm_compute; reflexivity).
  split; [exact H1|]. split; [exact H2|].
  exact (@send_starts_over_when_exhausted Sample.db 1 Sample.pushkin
           (Sample.in_stage after_poem [u "Узник"; u "Осень"]) H1 H2).
Defined.

(** *** Every poem once before the list starts over *)

Lemma mem_app (x : str) (l1 l2 : list str) :
  mem x (l1 ++ l2) = mem x l1 || mem x l2.
Proof. unfold mem. apply existsb_app. Qed.

Lemma unused_nil (rows : list Poem.t) : unused [] rows = rows.
Proof.
  unfold unused. induction rows as [|row rows IH]; [reflexivity|].
  cbn in *. now rewrite IH.
Qed.

Lemma filter_andb (A : Type) (p q : A -> bool) (l : list A) :
  filter (fun x => p x && q x) l = filter q (filter p l).
Proof.
  induction l as [|x l IH]; [reflexivity|]. cbn [filter].
  destruct (p x); cbn [andb filter]; [|exact IH].
  destruct (q x); now rewrite IH.
Qed.

Lemma unused_app (used : list str) (t : str) (rows : list Poem.t) :
  unused (used ++ [t]) rows
  = filter (fun row => negb (str_eqb (Poem.title row) t)) (unused used rows).
Proof.
  unfold unused. rewrite <- filter_andb. apply filter_ext. intros row.
  rewrite mem_app, negb_orb. f_equal.
  unfold mem. cbn [existsb]. now rewrite orb_false_r.
Qed.

(** Dropping rows keeps the titles distinct. *)
Lemma distinct_titles_kept (keep : Poem.t -> bool) (rows : list Poem.t) :
  NoDup (map Poem.title rows) -> NoDup (map Poem.title (filter keep rows)).
Proof.
  intros Hrows. induction rows as [|row rows IH]; [exact Hrows|].
  apply NoDup_cons_iff in Hrows as [Hfresh Hrest]. cbn [filter].
  destruct (keep row); [|exact (IH Hrest)].
  apply NoDup_cons; [|exact (IH Hrest)].
  intros Hin. apply Hfresh. apply in_map_iff in Hin as (other & Etitle & Hin).
  apply filter_In in Hin as [Hin _]. rewrite <- Etitle. now apply in_map.
Qed.

Lemma str_eqb_refl (s : str) : str_eqb s s = true.
Proof. now apply str_eqb_eq. Qed.

Lemma str_eqb_neq (a b : str) : a <> b -> str_eqb a b = false.
Proof.
  intros H. destruct (str_eqb a b) eqn:E; [|reflexivity].
  apply str_eqb_eq in E. contradiction.
Qed.

(** With distinct titles, dropping the rows of one title drops one row. *)
Lemma drop_title_permutation (l : list Poem.t) (row : Poem.t) :
  NoDup (map Poem.title l) -> In row l ->
  Permutation l
    (row :: filter (fun y => negb (str_eqb (Poem.title y) (Poem.title row))) l).
Proof.
  induction l as [|x l IH]; [intros _ []|].
  cbn [map]. intros H Hin. inversion H as [|? ? Hx Hl]; subst.
  assert (Hkeep : forall y, In y l ->
            negb (str_eqb (Poem.title y) (Poem.title x)) = true).
  { intros y Hy. rewrite str_eqb_neq; [reflexivity|].
    intros E. apply Hx. rewrite <- E. now apply in_map. }
  destruct Hin as [-> | Hin].
  - cbn [filter]. rewrite str_eqb_refl. cbn [negb].
    rewrite forallb_filter_id; [reflexivity|].
    apply forallb_forall. exact Hkeep.
  - cbn [filter].
    assert (Hne : str_eqb (Poem.title x) (Poem.title row) = false).
    { apply str_eqb_neq. intros E. apply Hx. rewrite E. now apply in_map. }
    rewrite Hne. cbn [negb].
    etransitivity; [apply perm_skip, (IH Hl Hin)|]. apply perm_swap.
Qed.

Lemma last_cons_default (A : Type) (x : A) (l : list A) (d1 d2 : A) :
  last (x :: l) d1 = last (x :: l) d2.
Proof.
  revert x. induction l as [|y l IH]; intros x; [reflexivity|].
  change (last (y :: l) d1 = last (y :: l) d2). apply IH.
Qed.

Lemma last_data_cons (A : Type) (d : user_data) (o : outcome A)
    (os : list (outcome A)) :
  last_data d (o :: os) = last_data (data o) os.
Proof.
  destruct os as [|x os]; [reflexivity|]. unfold last_data.
  change (last (o :: x :: os) ?def) with (last (x :: os) def).
  f_equal. apply last_cons_default.
Qed.

Section Rounds.
Variable db : Database.
Variable author : Author.t.

Let rows := Db.poem_rows db (Author.id author).

(** As many calls as there are unused poems deliver each of them once. *)
Lemma send_all_unused (draws : list nat) (d : user_data) :
  NoDup (map Poem.title (unused (get_poems_used d) rows)) ->
  List.length draws = List.length (unused (get_poems_used d) rows) ->
  let outs := send_all db author draws d in
  Forall (fun o => value o = Ret true) outs
  /\ Permutation (flat_map (fun o => sent_texts (calls o)) outs)
       (map render (unused (get_poems_used d) rows))
  /\ Permutation (get_poems_used (last_data d outs))
       (get_poems_used d ++ map Poem.title (unused (get_poems_used d) rows))
  /\ unused (get_poems_used (last_data d outs)) rows = [].
Proof.
  revert d. induction draws as [|r rs IH]; intros d Hnd Hlen outs; subst outs.
  - destruct (unused (get_poems_used d) rows) eqn:E; [|discriminate].
    cbn [send_all flat_map map]. unfold last_data. cbn [last data].
    rewrite app_nil_r. auto.
  - cbn [send_all]. rewrite last_data_cons.
    destruct (send_cases db r author d)
      as [(row & Hin & Ho) | [(Hex & _) | (Hnone & _)]].
    + fold rows in Hin. rewrite Ho. cbn [data].
      set (d1 := set_poems_used (get_poems_used d ++ [Poem.title row]) d).
      assert (Hused : get_poems_used d1 = get_poems_used d ++ [Poem.title row])
        by reflexivity.
      pose proof (@drop_title_permutation _ _ Hnd Hin) as Hperm.
      rewrite <- unused_app, <- Hused in Hperm.
      assert (Hnd1 : NoDup (map Poem.title (unused (get_poems_used d1) rows))).
      { rewrite Hused, unused_app. now apply distinct_titles_kept. }
      assert (Hlen1 : List.length rs
                      = List.length (unused (get_poems_used d1) rows)).
      { apply Permutation_length in Hperm. cbn [List.length] in *. lia. }
      destruct (IH d1 Hnd1 Hlen1) as (Hall & Htexts & Htitles & Hdone).
      split; [|split; [|split]].
      * constructor; [reflexivity | exact Hall].
      * cbn [flat_map calls sent_texts app].
        rewrite (Permutation_map render Hperm). cbn [map].
        now apply perm_skip.
      * rewrite Htitles, Hused, <- app_assoc. apply Permutation_app_head.
        rewrite (Permutation_map Poem.title Hperm). reflexivity.
      * exact Hdone.
    + fold rows in Hex. rewrite Hex in Hlen. discriminate.
    + fold rows in Hnone. rewrite Hnone in Hlen. discriminate.
Qed.

End Rounds.

(** X4.  From an empty list of used titles, with poem titles that are
    distinct, as many calls of [_send_random_poem] as the author has poems
    all succeed and deliver every poem exactly once, whatever the random
    draws; the list then holds every title; and the next call starts over:
    it delivers a poem of the author and the list holds that title alone. *)
Theorem every_poem_once_before_starting_over
    (db : Database) (author : Author.t) (draws : list nat) (d : user_data)
    (next : nat) :
  NoDup (map Poem.title (Db.poem_rows db (Author.id author))) ->
  Db.poem_rows db (Author.id author) <> [] ->
  get_poems_used d = [] ->
  List.length draws = List.length (Db.poem_rows db (Author.id author)) ->
  let outs := send_all db author draws d in
  let after := last_data d outs in
  Forall (fun o => value o = Ret true) outs
  /\ Permutation (flat_map (fun o => sent_texts (calls o)) outs)
       (map render (Db.poem_rows db (Author.id author)))
  /\ Permutation (get_poems_used after)
       (map Poem.title (Db.poem_rows db (Author.id author)))
  /\ exists row,
       In row (Db.poem_rows db (Author.id author))
       /\ value (_send_random_poem db next author after) = Ret true
       /\ sent_texts (calls (_send_random_poem db next author after))
          = [render row]
       /\ poems_used (data (_send_random_poem db next author after))
          = Some [Poem.title row].
Proof.
  intros Hnd Hrows Hempty Hlen outs after.
  pose proof (send_all_unused db author draws d) as H.
  rewrite Hempty, unused_nil in H. cbn [app] in H.
  destruct (H Hnd Hlen) as (Hall & Htexts & Htitles & Hdone).
  split; [exact Hall|]. split; [exact Htexts|]. split; [exact Htitles|].
  destruct (@send_starts_over_when_exhausted db next author after Hrows Hdone)
    as (row & Hin & Hv & Hc & Hp).
  exists row. split; [exact Hin|]. split; [exact Hv|].
  split; [|exact Hp]. rewrite Hc. reflexivity.
Qed.

Lemma every_poem_once_before_starting_over_witness :
  NoDup (map Poem.title (Db.poem_rows Sample.db (Author.id Sample.pushkin)))
  /\ Db.poem_rows Sample.db (Author.id Sample.pushkin) <> []
  /\ Permutation
       (flat_map (fun o => sent_texts (calls o))
          (send_all Sample.db Sample.pushkin [5; 2]
             (Sample.in_stage offer_poem [])))
       (map render (Db.poem_rows Sample.db (Author.id Sample.pushkin))).
Proof.
  assert (H1 : NoDup (map Poem.title
                        (Db.poem_rows Sample.db (Author.id Sample.pushkin)))).
  { change (NoDup [Poem.title Sample.uznik; Poem.title Sample.osen]).
    constructor.
    - intros [E | []]. vm_compute in E. discriminate.
    - constructor; [intros [] | constructor]. }
  assert (H2 : Db.poem_rows Sample.db (Author.id Sample.pushkin) <> [])
    by (vm_compute; discriminate).
  split; [exact H1|]. split; [exact H2|].
  exact (proj1 (proj2
    (@every_poem_once_before_starting_over Sample.db Sample.pushkin [5; 2]
       (Sample.in_stage offer_poem []) 7 H1 H2 eq_refl eq_refl))).
Defined.

(** ** Seeding poems *)

Lemma same_poem_key (a : Z) (t : str) (row : Poem.t) :
  Db.same_poem a t row = true <-> poem_key row = (a, t).
Proof.
  unfold Db.same_poem, poem_key. rewrite andb_true_iff, Z.eqb_eq, str_eqb_eq.
  split; [intros [-> ->]; reflexivity | intros H; now injection H].
Qed.

Lemma keys_give_titles (a : Z) (rows : list Poem.t) :
  NoDup (map poem_key rows) ->
  NoDup (map Poem.title
           (filter (fun p => Z.eqb (Poem.author_id p) a) rows)).
Proof.
  intros Hkeys. induction rows as [|row rows IH]; [constructor|].
  cbn [map] in Hkeys. apply NoDup_cons_iff in Hkeys as [Hfresh Hrest].
  cbn [filter]. destruct (Z.eqb_spec (Poem.author_id row) a) as [Ea|_];
    [|exact (IH Hrest)].
  cbn [map]. apply NoDup_cons; [|exact (IH Hrest)].
  intros Hin. apply Hfresh. apply in_map_iff in Hin as (other & Et & Hin).
  apply filter_In in Hin as [Hin Eo]. apply Z.eqb_eq in Eo.
  apply in_map_iff. exists other. split; [|exact Hin].
  unfold poem_key. now rewrite Et, Eo, Ea.
Qed.

(** X5.  [_ensure_poem] is an upsert on (author, title): on a table whose
    rows have distinct (author, title) pairs the result again has distinct
    pairs, it holds the row with the given text and the lowercased
    keywords, that row is the only one of its pair, every row of another
    pair is kept as it is, and the titles of the poems of one author are
    distinct. *)
Theorem ensure_poem_upserts
    (lower : str -> str) (a : Z) (t x : str) (keywords : list str)
    (rows : list Poem.t) (of_author : Z) :
  NoDup (map poem_key rows) ->
  let rows' := Db._ensure_poem lower a t x keywords rows in
  NoDup (map poem_key rows')
  /\ In (Poem.mk a t x (map lower keywords)) rows'
  /\ (forall row, In row rows' -> poem_key row = (a, t) ->
      row = Poem.mk a t x (map lower keywords))
  /\ (forall row, poem_key row <> (a, t) -> (In row rows <-> In row rows'))
  /\ NoDup (map Poem.title
              (filter (fun p => Z.eqb (Poem.author_id p) of_author) rows')).
Proof.
  intros Hkeys rows'.
  assert (Hmain :
    NoDup (map poem_key rows')
    /\ In (Poem.mk a t x (map lower keywords)) rows'
    /\ (forall row, In row rows' -> poem_key row = (a, t) ->
        row = Poem.mk a t x (map lower keywords))
    /\ (forall row, poem_key row <> (a, t) -> (In row rows <-> In row rows'))).
  { subst rows'. unfold Db._ensure_poem.
    set (new := Poem.mk a t x (map lower keywords)).
    set (upd := fun row : Poem.t =>
                  if Db.same_poem a t row
                  then Poem.mk (Poem.author_id row) (Poem.title row) x
                         (map lower keywords)
                  else row).
    assert (Hupd_key : forall row, poem_key (upd row) = poem_key row).
    { intros row. unfold upd. destruct (Db.same_poem a t row); reflexivity. }
    assert (Hupd_hit : forall row, poem_key row = (a, t) -> upd row = new).
    { intros row Hk. unfold upd. rewrite (proj2 (same_poem_key a t row) Hk).
      unfold poem_key in Hk. injection Hk as -> ->. reflexivity. }
    assert (Hupd_miss : forall row, poem_key row <> (a, t) -> upd row = row).
    { intros row Hk. unfold upd.
      destruct (Db.same_poem a t row) eqn:E; [|reflexivity].
      apply same_poem_key in E. contradiction. }
    destruct (existsb (Db.same_poem a t) rows) eqn:Ex.
    - apply existsb_exists in Ex as (hit & Hhit & Hsame).
      apply same_poem_key in Hsame.
      split; [|split; [|split]].
      + rewrite map_map. rewrite (map_ext _ poem_key Hupd_key). exact Hkeys.
      + apply in_map_iff. exists hit. split; [now apply Hupd_hit | exact Hhit].
      + intros row Hin Hk. apply in_map_iff in Hin as (old & <- & _).
        rewrite Hupd_key in Hk. now apply Hupd_hit.
      + intros row Hk. rewrite in_map_iff. split.
        * intros Hin. exists row. split; [now apply Hupd_miss | exact Hin].
        * intros (old & E & Hin). rewrite <- E in Hk. rewrite Hupd_key in Hk.
          rewrite (Hupd_miss old Hk) in E. now subst.
    - assert (Hfresh : ~ In (a, t) (map poem_key rows)).
      { intros Hin. apply in_map_iff in Hin as (row & Hk & Hin).
        apply same_poem_key in Hk.
        assert (existsb (Db.same_poem a t) rows = true)
          by (apply existsb_exists; now exists row).
        congruence. }
      split; [|split; [|split]].
      + rewrite map_app. cbn [map].
        apply Permutation_NoDup with (poem_key new :: map poem_key rows);
          [apply Permutation_cons_append|].
        constructor; assumption.
      + apply in_or_app. right. now left.
      + intros row Hin Hk. apply in_app_or in Hin as [Hin | [<- | []]];
          [|reflexivity].
        elim Hfresh. rewrite <- Hk. now apply in_map.
      + intros row Hk. rewrite in_app_iff. split; [now left|].
        intros [Hin | [<- | []]]; [exact Hin|]. now elim Hk. }
  destruct Hmain as (H1 & H2 & H3 & H4).
  repeat split; try assumption; try apply H4; try assumption.
  - now apply keys_give_titles.
Qed.

Lemma ensure_poem_upserts_witness :
  NoDup (map poem_key [Sample.uznik])
  /\ In (Poem.mk 1 (u "Узник") (u "Сижу за решёткой.") (map lower_ru [u "УЗНИК"]))
       (Db._ensure_poem lower_ru 1 (u "Узник") (u "Сижу за решёткой.")
          [u "УЗНИК"] [Sample.uznik]).
Proof.
  assert (H : NoDup (map poem_key [Sample.uznik])).
  { constructor; [intros [] | constructor]. }
  split; [exact H|].
  exact (proj1 (proj2
    (@ensure_poem_upserts lower_ru 1 (u "Узник") (u "Сижу за решёткой.")
       [u "УЗНИК"] [Sample.uznik] 1 H))).
Defined.

(** ** Used titles are delivered titles *)

Section Accounting.
Variable lower : str -> str.
Variable db : Database.
Variable openai_model : str.

Lemma accounted_same (A : Type) (d : user_data) (o : outcome A) :
  get_poems_used (data o) = get_poems_used d -> accounted db d o.
Proof. intros E t Hin. left. now rewrite <- E. Qed.

Lemma accounted_prepend (A : Type) (cs : list call) (d : user_data)
    (o : outcome A) :
  accounted db d o -> accounted db d (prepend cs o).
Proof.
  intros H t Hin. destruct (H t Hin) as [Hold | (row & Hrow & Et & Hsent)];
    [now left|].
  right. exists row. split; [exact Hrow|]. split; [exact Et|].
  unfold prepend. cbn [calls]. apply in_or_app. now right.
Qed.

Lemma poem_row_in_table (a : Z) (row : Poem.t) :
  In row (Db.poem_rows db a) -> In row (poems db).
Proof. unfold Db.poem_rows. intros H. now apply filter_In in H. Qed.

(** The poem is sent and then the stage is set: lines 196-197, 203-204. *)
Lemma accounted_send (r : nat) (author : Author.t) (d : user_data) :
  accounted db d
    ((sent <- _send_random_poem db r author ;;
      if (sent : bool) then modify (set_stage after_poem) else ret tt) d).
Proof.
  unfold bind.
  destruct (send_cases db r author d)
    as [(row & Hin & ->) | [(_ & row & Hin & ->) | (_ & ->)]];
    cbn [value data calls modify ret app]; intros t Ht;
    cbn [get_poems_used set_stage set_poems_used poems_used] in Ht.
  - apply in_app_or in Ht as [Ht | [<- | []]]; [now left|].
    right. exists row. unfold unused in Hin. apply filter_In in Hin as [Hin _].
    split; [now apply poem_row_in_table with (Author.id author)|].
    split; [reflexivity|]. cbn [calls In]. auto.
  - destruct Ht as [<- | []].
    right. exists row.
    split; [now apply poem_row_in_table with (Author.id author)|].
    split; [reflexivity|]. cbn [calls In]. auto.
  - destruct Ht.
Qed.

Lemma ask_name_keeps_used (text : str) (d : user_data) :
  get_poems_used (data (ask_name_rules lower text d)) = get_poems_used d.
Proof.
  unfold ask_name_rules, bind, modify, reply_text, emit, raise.
  destruct (negb (truthy (strip text))); [reflexivity|].
  destruct (negb (truthy _)); [reflexivity|].
  destruct (split _); reflexivity.
Qed.

Lemma accounted_stage_rules e st a author text text_lower d :
  accounted db d
    (stage_rules lower db openai_model e st a author text text_lower d).
Proof.
  assert (Hchain : accounted db d
            (resolution_chain lower db openai_model e a author text
               text_lower d)).
  { apply accounted_same. now rewrite chain_keeps_data. }
  assert (Hafter : accounted db d
            (after_poem_rules db e author text_lower
               (resolution_chain lower db openai_model e a author text
                  text_lower) d)).
  { unfold after_poem_rules. destruct (asks_more text_lower);
      [apply accounted_send|].
    destruct (after_declines text_lower); [now apply accounted_same|].
    exact Hchain. }
  unfold stage_rules.
  destruct (stage_is st ask_name);
    [apply accounted_same, ask_name_keeps_used|].
  destruct (stage_is st offer_poem).
  - unfold offer_poem_rules. destruct (offer_declines text_lower);
      [now apply accounted_same|].
    destruct (offer_accepts text_lower); [apply accounted_send|].
    destruct (stage_is st after_poem); assumption.
  - destruct (stage_is st after_poem); assumption.
Qed.

Lemma accounted_handle e upd d :
  accounted db d (handle_dialog_message lower db openai_model e upd d).
Proof.
  unfold handle_dialog_message.
  destruct upd as [msg|]; [|now apply accounted_same].
  unfold bind, get. cbn [value data calls].
  destruct (dialog_author_id d) as [a|]; [|now apply accounted_same].
  destruct (Z.eqb a 0); [now apply accounted_same|].
  cbn [emit value data calls].
  destruct (Db.get_author db a) as [author|]; [|now apply accounted_same].
  destruct (is_greeting _ _).
  - apply accounted_same. destruct d as [ai an st pu un].
    unfold bind, modify, reply_text, emit, setdefault_poems_used,
      get_poems_used.
    cbn [value data calls set_stage poems_used]. destruct pu; reflexivity.
  - apply (@accounted_prepend unit [Db_get_author a] d
             (stage_rules lower db openai_model e (dialog_stage d) a author
                (match message_text msg with Some t => t | None => [] end)
                (lower (match message_text msg with Some t => t | None => [] end))
                d)).
    apply accounted_stage_rules.
Qed.

End Accounting.

Section Sessions.
Variable lower : str -> str.
Variable db : Database.
Variable openai_model : str.

Lemma step_keeps_delivered (s : session) (ev : event) :
  Forall (delivered_in db (transcript s)) (get_poems_used (session_data s)) ->
  Forall (delivered_in db (transcript (step lower db openai_model s ev)))
    (get_poems_used (session_data (step lower db openai_model s ev))).
Proof.
  intros Hinv.
  assert (Hgrow : forall cs t, delivered_in db (transcript s) t ->
                               delivered_in db (transcript s ++ cs) t).
  { intros cs t (row & Hrow & Et & Hsent). exists row.
    split; [exact Hrow|]. split; [exact Et|]. apply in_or_app. now left. }
  destruct ev as [a hm | e upd | hm | ]; cbn [step].
  - unfold enter_dialog, bind, emit, modify, reply_text.
    cbn [value data calls].
    destruct (Db.get_author db a) as [author|];
      cbn [session_data transcript value data calls].
    + destruct hm; cbn [value data calls]; constructor.
    + eapply Forall_impl; [apply Hgrow | exact Hinv].
  - cbn [session_data transcript]. apply Forall_forall. intros t Ht.
    destruct (@accounted_handle lower db openai_model e upd (session_data s) t Ht)
      as [Hold | (row & Hrow & Et & Hsent)].
    + apply Hgrow. rewrite Forall_forall in Hinv. now apply Hinv.
    + exists row. split; [exact Hrow|]. split; [exact Et|].
      apply in_or_app. now right.
  - unfold stop_dialog, bind, modify, reply_text, emit.
    cbn [session_data value data calls].
    destruct hm; cbn [value data calls]; constructor.
  - unfold end_, bind, modify, emit. cbn [session_data value data calls].
    constructor.
Qed.

End Sessions.

(** X6.  Whatever updates a user sends, in whatever order, each title in
    [poems_used] is the title of a poem of the repository with whose message
    (title, empty line, text) [reply_text] was called since the dialogue was
    last entered.  (The title is stored before the call; the statement is
    about the call made, in turns whose transport calls complete.) *)
Theorem used_titles_were_delivered
    (lower : str -> str) (db : Database) (openai_model : str)
    (evs : list event) :
  Forall
    (fun t => exists row,
       In row (poems db) /\ Poem.title row = t
       /\ In (Reply_text (Poem.title row ++ nl2 ++ Poem.text row))
            (transcript (run lower db openai_model evs)))
    (get_poems_used (session_data (run lower db openai_model evs))).
Proof.
  unfold run.
  assert (H : forall s,
    Forall (delivered_in db (transcript s)) (get_poems_used (session_data s)) ->
    Forall (delivered_in db
              (transcript (fold_left (step lower db openai_model) evs s)))
      (get_poems_used
         (session_data (fold_left (step lower db openai_model) evs s)))).
  { induction evs as [|ev evs IH]; intros s Hs; [exact Hs|].
    cbn [fold_left]. apply IH. now apply step_keeps_delivered. }
  apply (H start_session). constructor.
Qed.

(** ** One reply per message *)

Section Replies.
Variable lower : str -> str.
Variable db : Database.
Variable openai_model : str.

Lemma replies_once_prepend_query (A : Type) (c : call) (o : outcome A) :
  (forall s, c <> Reply_text s) ->
  replies_once o -> replies_once (prepend [c] o).
Proof.
  intros Hc. unfold replies_once, prepend. cbn [value calls app].
  destruct c; try (intros H; exact H). now elim (Hc s).
Qed.

Lemma replies_once_send (r : nat) (author : Author.t) (d : user_data) :
  replies_once
    ((sent <- _send_random_poem db r author ;;
      if (sent : bool) then modify (set_stage after_poem) else ret tt) d).
Proof.
  unfold bind, replies_once.
  destruct (send_cases db r author d)
    as [(row & _ & ->) | [(_ & row & _ & ->) | (_ & ->)]];
    cbn [value data calls modify ret app sent_texts]; eexists; reflexivity.
Qed.

Lemma replies_once_chain e a author text text_lower d :
  replies_once
    (resolution_chain lower db openai_model e a author text text_lower d).
Proof.
  unfold resolution_chain, bind, emit, reply_text, raise, replies_once.
  cbn [value data calls].
  destruct (Ai.opt_truthy (Db.find_poem_text lower db a text_lower));
    [cbn [value data calls app sent_texts]; eexists; reflexivity|].
  destruct (contains text_lower (u "расскажи") && contains text_lower (u "стих"));
    [cbn [value data calls app sent_texts]; eexists; reflexivity|].
  cbn [value data calls].
  destruct (Ai.opt_truthy (Db.find_character_insight lower db a text_lower));
    [cbn [value data calls app sent_texts]; eexists; reflexivity|].
  cbn [value data calls].
  destruct (Ai.opt_truthy (Db.find_faq_answer lower db a text_lower));
    [cbn [value data calls app sent_texts]; eexists; reflexivity|].
  cbn [value data calls].
  destruct (Ai.generate_reply openai_model (create e) author
              (Db.get_author_works db a) text);
    cbn [value data calls app sent_texts];
    [eexists; reflexivity | reflexivity].
Qed.

Lemma replies_once_ask_name (text : str) (d : user_data) :
  replies_once (ask_name_rules lower text d).
Proof.
  unfold ask_name_rules, bind, modify, reply_text, emit, raise, replies_once.
  destruct (negb (truthy (strip text)));
    [cbn [value calls sent_texts]; eexists; reflexivity|].
  destruct (negb (truthy _));
    [cbn [value calls sent_texts]; eexists; reflexivity|].
  destruct (split _); cbn [value data calls app sent_texts];
    [reflexivity | eexists; reflexivity].
Qed.

Lemma replies_once_stage_rules e st a author text text_lower d :
  replies_once
    (stage_rules lower db openai_model e st a author text text_lower d).
Proof.
  pose proof (replies_once_chain e a author text text_lower d) as Hchain.
  assert (Hsay : forall s, replies_once (reply_text s d)).
  { intros s. unfold replies_once, reply_text, emit.
    cbn [value calls sent_texts]. eexists; reflexivity. }
  assert (Hafter : replies_once
            (after_poem_rules db e author text_lower
               (resolution_chain lower db openai_model e a author text
                  text_lower) d)).
  { unfold after_poem_rules. destruct (asks_more text_lower);
      [apply replies_once_send|].
    destruct (after_declines text_lower); [apply Hsay | exact Hchain]. }
  unfold stage_rules.
  destruct (stage_is st ask_name); [apply replies_once_ask_name|].
  destruct (stage_is st offer_poem).
  - unfold offer_poem_rules. destruct (offer_declines text_lower);
      [apply Hsay|].
    destruct (offer_accepts text_lower); [apply replies_once_send|].
    destruct (stage_is st after_poem); assumption.
  - destruct (stage_is st after_poem); assumption.
Qed.

End Replies.

(** X7.  A text message that [handle_dialog_message] handles to the end gets
    exactly one reply, whatever the session, the repository and the
    provider; when the handler raises (the name capture, or an exception of
    the adapter that is not an [APIError]) it has sent no reply. *)
Theorem one_reply_per_message
    (lower : str -> str) (db : Database) (openai_model : str) (e : env)
    (msg : message) (d : user_data) :
  match value (handle_dialog_message lower db openai_model e (Some msg) d) with
  | Ret _ =>
    exists s,
      sent_texts
        (calls (handle_dialog_message lower db openai_model e (Some msg) d))
      = [s]
  | Raise _ =>
    sent_texts
      (calls (handle_dialog_message lower db openai_model e (Some msg) d))
    = []
  end.
Proof.
  change (replies_once
            (handle_dialog_message lower db openai_model e (Some msg) d)).
  assert (Hsay : forall s, replies_once (reply_text s d)).
  { intros s. unfold replies_once, reply_text, emit.
    cbn [value calls sent_texts]. eexists; reflexivity. }
  unfold handle_dialog_message, bind, get. cbn [value data calls].
  destruct (dialog_author_id d) as [a|]; [|apply Hsay].
  destruct (Z.eqb a 0); [apply Hsay|].
  cbn [emit value data calls].
  destruct (Db.get_author db a) as [author|].
  - destruct (is_greeting _ _).
    + unfold replies_once, modify, reply_text, emit.
      cbn [value data calls app sent_texts]. eexists; reflexivity.
    + apply (@replies_once_prepend_query unit (Db_get_author a)
               (stage_rules lower db openai_model e (dialog_stage d) a author
                  (match message_text msg with Some t => t | None => [] end)
                  (lower (match message_text msg with
                          | Some t => t | None => [] end)) d)).
      * discriminate.
      * apply replies_once_stage_rules.
  - unfold replies_once, reply_text, emit.
    cbn [value data calls app sent_texts]. eexists; reflexivity.
Qed.

(** ** The moves of the stage *)

Section Moves.
Variable lower : str -> str.
Variable db : Database.
Variable openai_model : str.

Lemma send_then_stage (r : nat) (author : Author.t) (d : user_data) :
  let o := (sent <- _send_random_poem db r author ;;
            if (sent : bool) then modify (set_stage after_poem) else ret tt) d in
  dialog_author_id (data o) = dialog_author_id d
  /\ dialog_author_name (data o) = dialog_author_name d
  /\ user_name (data o) = user_name d
  /\ (dialog_stage (data o) = Some after_poem
      \/ dialog_stage (data o) = dialog_stage d).
Proof.
  unfold bind.
  destruct (send_cases db r author d)
    as [(row & _ & ->) | [(_ & row & _ & ->) | (_ & ->)]];
    cbn [value data calls modify ret]; destruct d; cbn; auto.
Qed.

Lemma ask_name_data (text : str) (d : user_data) :
  data (ask_name_rules lower text d) = d
  \/ exists name,
       data (ask_name_rules lower text d)
       = set_stage offer_poem (set_user_name name d).
Proof.
  unfold ask_name_rules, bind, modify, reply_text, emit, raise.
  destruct (negb (truthy (strip text))); [now left|].
  destruct (negb (truthy _)); [now left|].
  destruct (split _) as [|name rest]; [now left|].
  right. exists name. reflexivity.
Qed.

End Moves.

(** X8.  A text message never changes the author the session is bound to,
    and it moves the stage only along the arrows of the dialogue: from the
    name request to the poem offer, from the offer to the stage after a
    poem, and from any later stage back to the name request (a greeting);
    no message unsets the stage or leads from the stage after a poem back to
    the offer.  The stored user name changes only on the move from the name
    request to the offer. *)
Theorem message_moves_the_stage
    (lower : str -> str) (db : Database) (openai_model : str) (e : env)
    (upd : option message) (d : user_data) :
  let o := handle_dialog_message lower db openai_model e upd d in
  dialog_author_id (data o) = dialog_author_id d
  /\ dialog_author_name (data o) = dialog_author_name d
  /\ allowed_next (dialog_stage d) (dialog_stage (data o)) = true
  /\ (user_name (data o) = user_name d
      \/ dialog_stage d = Some ask_name
         /\ dialog_stage (data o) = Some offer_poem).
Proof.
  intros o. subst o.
  assert (Hsame : forall o : outcome unit, data o = d ->
            dialog_author_id (data o) = dialog_author_id d
            /\ dialog_author_name (data o) = dialog_author_name d
            /\ allowed_next (dialog_stage d) (dialog_stage (data o)) = true
            /\ (user_name (data o) = user_name d
                \/ dialog_stage d = Some ask_name
                   /\ dialog_stage (data o) = Some offer_poem)).
  { intros o ->. repeat split; auto. destruct (dialog_stage d) as [[]|];
      reflexivity. }
  unfold handle_dialog_message.
  destruct upd as [msg|]; [|now apply Hsame].
  unfold bind, get. cbn [value data calls].
  destruct (dialog_author_id d) as [a|] eqn:Ea; [|now apply Hsame].
  destruct (Z.eqb a 0); [now apply Hsame|].
  cbn [emit value data calls].
  destruct (Db.get_author db a) as [author|]; [|now apply Hsame].
  set (text := match message_text msg with Some t => t | None => [] end).
  destruct (is_greeting (lower text) (dialog_stage d)) eqn:G.
  - unfold modify, reply_text, emit, setdefault_poems_used.
    cbn [value data calls].
    destruct (dialog_stage d) as [[]|] eqn:Est;
      try (rewrite not_greeting_in_ask_name in G; discriminate);
      destruct d as [ai an st pu un]; cbn in *; destruct pu; cbn; auto.
  - cbn [data]. unfold stage_rules.
    pose proof (chain_keeps_data lower db openai_model e a author text
                  (lower text) d) as Hchain.
    destruct (dialog_stage d) as [[]|] eqn:Est; cbn [stage_is stage_eqb].
    + destruct (ask_name_data lower text d) as [-> | (name & ->)].
      * rewrite Est, Ea. repeat split; auto.
      * destruct d as [ai an st pu un]; cbn in *. repeat split; auto.
    + unfold offer_poem_rules.
      destruct (offer_declines (lower text));
        [cbn [reply_text emit data]; rewrite Est, Ea; repeat split; auto|].
      destruct (offer_accepts (lower text)).
      * destruct (send_then_stage db (draw e) author d)
          as (H1 & H2 & H3 & [H4 | H4]); rewrite H1, H2, H3, H4, ?Est;
          repeat split; auto.
      * rewrite Hchain, Est, Ea. repeat split; auto.
    + unfold after_poem_rules.
      destruct (asks_more (lower text)).
      * destruct (send_then_stage db (draw e) author d)
          as (H1 & H2 & H3 & [H4 | H4]); rewrite H1, H2, H3, H4, ?Est;
          repeat split; auto.
      * destruct (after_declines (lower text));
          [cbn [reply_text emit data]; rewrite Est, Ea; repeat split; auto|].
        rewrite Hchain, Est, Ea. repeat split; auto.
    + rewrite Hchain, Est, Ea. repeat split; auto.
Qed.

(** ** Edges of the dialogue *)

(** X9.  In the stage where the name is asked, an input whose candidate is
    not empty after the punctuation and spaces around it are stripped but
    holds only whitespace (a dash, a line feed, a dash) makes
    [name_candidate.split()[0]] raise [IndexError]: no reply is sent and the
    session data is what it was. *)
Theorem name_of_whitespace_raises
    (lower : str -> str) (db : Database) (openai_model : str) (e : env)
    (msg : message) (d : user_data) (a : Z) (author : Author.t) :
  bound db d a author ->
  dialog_stage d = Some ask_name ->
  strip (text_of msg) <> [] ->
  strip_chars name_strip_chars (spec_candidate lower (text_of msg)) <> [] ->
  split (strip_chars name_strip_chars (spec_candidate lower (text_of msg)))
  = [] ->
  let o := handle_dialog_message lower db openai_model e (Some msg) d in
  value o = Raise IndexError
  /\ sent_texts (calls o) = []
  /\ data o = d.
Proof.
  intros Hb Hst Hne Hcand Hsplit o. subst o.
  rewrite (handle_bound lower openai_model e msg Hb).
  rewrite Hst, not_greeting_in_ask_name.
  unfold stage_rules, ask_name_rules, prepend, reply_text, emit, bind, raise.
  cbn [stage_is stage_eqb value data calls].
  rewrite name_candidate_spec.
  destruct (strip (text_of msg)) as [|c0 t0]; [now elim Hne|].
  cbn [truthy negb].
  destruct (strip_chars name_strip_chars (spec_candidate lower (text_of msg)))
    as [|c1 t1]; [now elim Hcand|].
  cbn [truthy negb]. rewrite Hsplit.
  cbn [value data calls app sent_texts]. auto.
Qed.

Lemma name_of_whitespace_raises_witness :
  bound Sample.db (Sample.in_stage ask_name []) 1 Sample.pushkin
  /\ strip (text_of {| message_text := Some [45; 10; 45]%N |}) <> []
  /\ split (strip_chars name_strip_chars
              (spec_candidate lower_ru
                 (text_of {| message_text := Some [45; 10; 45]%N |})))
     = []
  /\ value (handle_dialog_message lower_ru Sample.db Sample.model
              (Sample.turn 0 (Sample.answers []))
              (Some {| message_text := Some [45; 10; 45]%N |})
              (Sample.in_stage ask_name []))
     = Raise IndexError.
Proof.
  assert (Hb : bound Sample.db (Sample.in_stage ask_name []) 1 Sample.pushkin).
  { repeat split. discriminate. }
  assert (H1 : strip (text_of {| message_text := Some [45; 10; 45]%N |}) <> [])
    by (vm_compute; discriminate).
  assert (H2 : strip_chars name_strip_chars
                 (spec_candidate lower_ru
                    (text_of {| message_text := Some [45; 10; 45]%N |}))
               <> []) by (vm_compute; discriminate).
  assert (H3 : split (strip_chars name_strip_chars
                 (spec_candidate lower_ru
                    (text_of {| message_text := Some [45; 10; 45]%N |})))
               = []) by (vm_compute; reflexivity).
  split; [exact Hb|]. split; [exact H1|]. split; [exact H3|].
  exact (proj1
    (@name_of_whitespace_raises lower_ru Sample.db Sample.model
       (Sample.turn 0 (Sample.answers []))
       {| message_text := Some [45; 10; 45]%N |}
       (Sample.in_stage ask_name []) 1 Sample.pushkin Hb eq_refl H1 H2 H3)).
Defined.

(** X10.  After [stop_dialog] or [end], whatever the session held, a text
    message gets the "no author chosen" reply; the repository is not queried
    and the session data stays empty.  The same reply is given when the
    stored author id is 0. *)
Theorem message_after_stop
    (lower : str -> str) (db : Database) (openai_model : str) (e : env)
    (msg : message) (d : user_data) (has_message : bool) :
  handle_dialog_message lower db openai_model e (Some msg)
    (data (stop_dialog has_message d))
  = {| value := Ret tt; data := empty_user_data;
       calls := [Reply_text Msg.no_author] |}
  /\ handle_dialog_message lower db openai_model e (Some msg) (data (end_ d))
     = {| value := Ret tt; data := empty_user_data;
          calls := [Reply_text Msg.no_author] |}
  /\ handle_dialog_message lower db openai_model e (Some msg)
       (set_author_id 0 d)
     = {| value := Ret tt; data := set_author_id 0 d;
          calls := [Reply_text Msg.no_author] |}.
Proof.
  split; [|split].
  - unfold stop_dialog, bind, modify. cbn [value data calls].
    destruct has_message; reflexivity.
  - reflexivity.
  - reflexivity.
Qed.

(** X11.  For an author id in the range of a 64-bit signed integer,
    [enter_dialog] with the id of an author the repository does not have
    changes nothing in the session and only edits the message to the "not
    found" text.  With a known author it binds the session to the author,
    sets the stage to the name request and the used titles to the empty
    list, keeps a user name stored before, and makes the greeting call when
    the query carries a message. *)
Theorem enter_dialog_binds_the_author
    (db : Database) (a : Z) (has_message : bool) (d : user_data) :
  (- 2 ^ 63 <= a < 2 ^ 63)%Z ->
  match Db.get_author db a with
  | None =>
    enter_dialog db a has_message d
    = {| value := Ret tt; data := d;
         calls := [Query_answer; Db_get_author a;
                   Edit_message_text Msg.dialog_unavailable] |}
  | Some author =>
    value (enter_dialog db a has_message d) = Ret tt
    /\ data (enter_dialog db a has_message d)
       = {| dialog_author_id := Some a;
            dialog_author_name := Some (Author.name author);
            dialog_stage := Some ask_name;
            poems_used := Some [];
            user_name := user_name d |}
    /\ calls (enter_dialog db a has_message d)
       = [Query_answer; Db_get_author a;
          Edit_message_text (Msg.entered (Author.name author))]
         ++ (if has_message then [Reply_text Msg.greeting] else [])
    /\ Author.id author = a
  end.
Proof.
  intros _. unfold enter_dialog, bind, emit, modify, reply_text, ret.
  cbn [value data calls].
  destruct (Db.get_author db a) as [author|] eqn:G; [|reflexivity].
  split; [destruct has_message; reflexivity|].
  split; [destruct has_message; reflexivity|].
  split; [destruct has_message; reflexivity|].
  unfold Db.get_author in G. apply find_some in G as [_ G].
  now apply Z.eqb_eq in G.
Qed.

Lemma enter_dialog_binds_the_author_witness :
  (- 2 ^ 63 <= 7 < 2 ^ 63)%Z
  /\ match Db.get_author Sample.db 7 with
     | None =>
       enter_dialog Sample.db 7 true (Sample.in_stage after_poem [u "Узник"])
       = {| value := Ret tt; data := Sample.in_stage after_poem [u "Узник"];
            calls := [Query_answer; Db_get_author 7;
                      Edit_message_text Msg.dialog_unavailable] |}
     | Some author =>
       value (enter_dialog Sample.db 7 true
                (Sample.in_stage after_poem [u "Узник"])) = Ret tt
       /\ data (enter_dialog Sample.db 7 true
                  (Sample.in_stage after_poem [u "Узник"]))
          = {| dialog_author_id := Some 7%Z;
               dialog_author_name := Some (Author.name author);
               dialog_stage := Some ask_name;
               poems_used := Some [];
               user_name := user_name (Sample.in_stage after_poem [u "Узник"]) |}
       /\ calls (enter_dialog Sample.db 7 true
                   (Sample.in_stage after_poem [u "Узник"]))
          = [Query_answer; Db_get_author 7;
             Edit_message_text (Msg.entered (Author.name author))]
            ++ (if true then [Reply_text Msg.greeting] else [])
       /\ Author.id author = 7%Z
     end.
Proof.
  assert (H : (- 2 ^ 63 <= 7 < 2 ^ 63)%Z) by (split; [discriminate | reflexivity]).
  split; [exact H|].
  exact (@enter_dialog_binds_the_author Sample.db 7 true
           (Sample.in_stage after_poem [u "Узник"]) H).
Defined.

Lemma greeting_not_accept (s : str) :
  mem s greetings = true -> offer_accepts s = false.
Proof.
  intros H. apply mem_greetings in H.
  destruct H as [-> | [-> | ->]]; vm_compute; reflexivity.
Qed.

Lemma handle_poem_request
    (lower : str -> str) (db : Database) (openai_model : str) (e : env)
    (msg : message) (d : user_data) (a : Z) (author : Author.t) :
  bound db d a author ->
  requests_poem (dialog_stage d) (lower (text_of msg)) = true ->
  handle_dialog_message lower db openai_model e (Some msg) d
  = prepend [Db_get_author a]
      ((sent <- _send_random_poem db (draw e) author ;;
        if (sent : bool) then modify (set_stage after_poem) else ret tt) d).
Proof.
  intros Hb Hreq. rewrite (handle_bound lower openai_model e msg Hb).
  unfold requests_poem in Hreq.
  assert (G : is_greeting (lower (text_of msg)) (dialog_stage d) = false).
  { unfold is_greeting.
    destruct (mem (lower (text_of msg)) greetings) eqn:M; [|reflexivity].
    pose proof (greeting_not_accept _ M) as Ha.
    destruct (greeting_not_decline _ M) as (_ & _ & Hm).
    rewrite Ha, Hm, !andb_false_r in Hreq. discriminate. }
  rewrite G. unfold stage_rules.
  destruct (dialog_stage d) as [[]|]; cbn [stage_is stage_eqb andb orb] in *;
    try discriminate.
  - unfold offer_poem_rules.
    destruct (offer_declines (lower (text_of msg)));
      destruct (offer_accepts (lower (text_of msg)));
      cbn [negb andb orb] in Hreq; try discriminate. reflexivity.
  - unfold after_poem_rules. now rewrite Hreq.
Qed.

(** X12.  A message that accepts the offered poem, or asks for one more
    after a poem, calls the picker.  When the author has a poem, one poem of
    the author is sent, its title is in the used titles afterwards and the
    stage is [after_poem]; when the author has none, the "no poems" text is
    sent, the used titles are the empty list and the stage is what it
    was. *)
Theorem poem_request_delivers
    (lower : str -> str) (db : Database) (openai_model : str) (e : env)
    (msg : message) (d : user_data) (a : Z) (author : Author.t) :
  bound db d a author ->
  requests_poem (dialog_stage d) (lower (text_of msg)) = true ->
  let o := handle_dialog_message lower db openai_model e (Some msg) d in
  value o = Ret tt
  /\ (Db.poem_rows db (Author.id author) = [] ->
      sent_texts (calls o) = [Msg.no_poems]
      /\ dialog_stage (data o) = dialog_stage d
      /\ poems_used (data o) = Some [])
  /\ (Db.poem_rows db (Author.id author) <> [] ->
      dialog_stage (data o) = Some after_poem
      /\ exists row,
           In row (Db.poem_rows db (Author.id author))
           /\ sent_texts (calls o)
              = [Poem.title row ++ nl2 ++ Poem.text row]
           /\ In (Poem.title row) (get_poems_used (data o))).
Proof.
  intros Hb Hreq o. subst o.
  rewrite (@handle_poem_request lower db openai_model e msg d a author Hb Hreq).
  unfold bind, prepend.
  destruct (send_cases db (draw e) author d)
    as [(row & Hin & ->) | [(_ & row & Hin & ->) | (Hnone & ->)]];
    cbn [value data calls modify ret app sent_texts].
  - unfold unused in Hin. apply filter_In in Hin as [Hin _].
    split; [reflexivity|]. split.
    + intros E. rewrite E in Hin. destruct Hin.
    + intros _. split; [reflexivity|]. exists row.
      split; [exact Hin|]. split; [reflexivity|].
      cbn [get_poems_used set_stage set_poems_used poems_used].
      apply in_or_app. right. now left.
  - split; [reflexivity|]. split.
    + intros E. rewrite E in Hin. destruct Hin.
    + intros _. split; [reflexivity|]. exists row.
      split; [exact Hin|]. split; [reflexivity|]. now left.
  - split; [reflexivity|]. split.
    + intros _. auto.
    + intros Hne. now elim Hne.
Qed.

Lemma poem_request_delivers_witness :
  bound Sample.db (Sample.in_stage offer_poem []) 1 Sample.pushkin
  /\ requests_poem (dialog_stage (Sample.in_stage offer_poem []))
       (lower_ru (text_of {| message_text := Some (u "да, хочу") |})) = true
  /\ value (handle_dialog_message lower_ru Sample.db Sample.model
              (Sample.turn 0 (Sample.answers []))
              (Some {| message_text := Some (u "да, хочу") |})
              (Sample.in_stage offer_poem []))
     = Ret tt.
Proof.
  assert (Hb : bound Sample.db (Sample.in_stage offer_poem []) 1 Sample.pushkin).
  { repeat split. discriminate. }
  assert (Hr : requests_poem (dialog_stage (Sample.in_stage offer_poem []))
                 (lower_ru (text_of {| message_text := Some (u "да, хочу") |}))
               = true) by (vm_compute; reflexivity).
  split; [exact Hb|]. split; [exact Hr|].
  exact (proj1
    (@poem_request_delivers lower_ru Sample.db Sample.model
       (Sample.turn 0 (Sample.answers []))
       {| message_text := Some (u "да, хочу") |}
       (Sample.in_stage offer_poem []) 1 Sample.pushkin Hb Hr)).
Defined.

(** ** Substring search *)

Lemma startswith_prefix (p s : str) :
  startswith s p = true <-> exists post, s = p ++ post.
Proof.
  revert s. induction p as [|x p IH]; intros s.
  - destruct s; cbn [startswith];
      (split; [intros _; eexists; reflexivity | reflexivity]).
  - destruct s as [|c s]; cbn [startswith].
    + split; [discriminate | intros (post & H); discriminate].
    + unfold chr_eqb. rewrite andb_true_iff, N.eqb_eq, IH. split.
      * intros (-> & post & ->). now exists post.
      * intros (post & H). injection H as -> ->. eauto.
Qed.

Lemma find_first (sub s : str) (i : nat) :
  find s sub = Some i ->
  exists pre post,
    s = pre ++ sub ++ post /\ List.length pre = i
    /\ forall pre' post', s = pre' ++ sub ++ post' -> i <= List.length pre'.
Proof.
  revert i. induction s as [|c s IH]; intros i; cbn [find].
  - destruct (startswith [] sub) eqn:E; [|discriminate].
    intros H. injection H as <-. apply startswith_prefix in E as (post & E).
    exists [], post. repeat split; [exact E | intros; lia].
  - destruct (startswith (c :: s) sub) eqn:E.
    + intros H. injection H as <-. apply startswith_prefix in E as (post & E).
      exists [], post. repeat split; [exact E | intros; lia].
    + destruct (find s sub) as [j|]; [|discriminate].
      cbn [option_map]. intros H. injection H as <-.
      destruct (IH j eq_refl) as (pre & post & Es & Elen & Hmin).
      exists (c :: pre), post. split; [now rewrite Es|].
      split; [cbn [List.length]; now rewrite Elen|].
      intros [|c' pre'] post' E'.
      * assert (startswith (c :: s) sub = true)
          by (apply startswith_prefix; now exists post').
        congruence.
      * injection E' as _ E'. cbn [List.length].
        pose proof (Hmin pre' post' E'). lia.
Qed.

Lemma find_none (sub s : str) :
  find s sub = None -> forall pre post, s <> pre ++ sub ++ post.
Proof.
  induction s as [|c s IH]; cbn [find].
  - destruct (startswith [] sub) eqn:E; [discriminate|].
    intros _ pre post H. destruct pre; [|discriminate].
    assert (startswith [] sub = true)
      by (apply startswith_prefix; now exists post).
    congruence.
  - destruct (startswith (c :: s) sub) eqn:E; [discriminate|].
    destruct (find s sub) as [j|]; [discriminate|].
    intros _ [|c' pre] post H.
    + assert (startswith (c :: s) sub = true)
        by (apply startswith_prefix; now exists post).
      congruence.
    + injection H as _ H. exact (IH eq_refl pre post H).
Qed.

(** X13.  [sub in s] holds exactly when [sub] occurs in [s] as a run of
    consecutive characters; the empty string occurs in every string; and
    [s.find(sub)] is the position of the first occurrence. *)
Theorem contains_is_substring (s sub : str) :
  (contains s sub = true <-> exists pre post, s = pre ++ sub ++ post)
  /\ contains s [] = true
  /\ match find s sub with
     | Some i =>
       exists pre post,
         s = pre ++ sub ++ post /\ List.length pre = i
         /\ forall pre' post', s = pre' ++ sub ++ post' ->
                               i <= List.length pre'
     | None => contains s sub = false
     end.
Proof.
  split; [|split].
  - unfold contains. destruct (find s sub) as [i|] eqn:F.
    + split; [intros _ | reflexivity].
      destruct (@find_first sub s i F) as (pre & post & E & _). eauto.
    + split; [discriminate|]. intros (pre & post & E).
      now elim (@find_none sub s F pre post).
  - unfold contains. destruct s; reflexivity.
  - unfold contains. destruct (find s sub) as [i|] eqn:F; [|reflexivity].
    exact (@find_first sub s i F).
Qed.

(** ** The candidate name *)







(** ** Trimming *)

Section Strip.
Variable p : N -> bool.

Lemma lstrip_split (s : str) :
  exists pre, s = pre ++ lstrip_by p s /\ forallb p pre = true.
Proof.
  induction s as [|c s (pre & E & Hpre)]; [now exists []|].
  cbn [lstrip_by]. destruct (p c) eqn:Pc.
  - exists (c :: pre). cbn [app forallb]. rewrite Pc, <- E. auto.
  - now exists [].
Qed.

Lemma rstrip_split (s : str) :
  exists suf, s = rstrip_by p s ++ suf /\ forallb p suf = true.
Proof.
  unfold rstrip_by. destruct (lstrip_split (rev s)) as (pre & E & Hpre).
  exists (rev pre). split.
  - rewrite <- rev_app_distr, <- E. now rewrite rev_involutive.
  - rewrite forallb_forall in *. intros x Hx. apply Hpre.
    now apply in_rev.
Qed.

Lemma lstrip_fixed (s : str) :
  match s with [] => True | c :: _ => p c = false end -> lstrip_by p s = s.
Proof. destruct s as [|c s]; [reflexivity|]. cbn. now intros ->. Qed.

Lemma rstrip_last (s : str) (c : N) (r : str) :
  rstrip_by p s = c :: r -> p (last (c :: r) c) = false.
Proof.
  unfold rstrip_by. intros E.
  destruct (lstrip_by p (rev s)) as [|x t] eqn:L;
    [cbn in E; discriminate|].
  pose proof (lstrip_head _ _ L) as Px.
  rewrite <- E. cbn [rev]. now rewrite last_last.
Qed.

Lemma strip_by_shape (s : str) :
  (exists pre suf,
     s = pre ++ strip_by p s ++ suf
     /\ forallb p pre = true /\ forallb p suf = true)
  /\ match strip_by p s with
     | [] => True
     | c :: r => p c = false /\ p (last (c :: r) c) = false
     end.
Proof.
  unfold strip_by.
  destruct (lstrip_split s) as (pre & E1 & Hpre).
  destruct (rstrip_split (lstrip_by p s)) as (suf & E2 & Hsuf).
  split.
  - exists pre, suf. rewrite <- E2. auto.
  - destruct (rstrip_by p (lstrip_by p s)) as [|c r] eqn:R; [exact I|].
    split; [|exact (rstrip_last _ R)].
    destruct (lstrip_by p s) as [|x t] eqn:L; [discriminate|].
    injection E2 as -> _. exact (lstrip_head _ _ L).
Qed.

Lemma strip_by_blank (s : str) :
  strip_by p s = [] <-> forallb p s = true.
Proof.
  destruct (strip_by_shape s) as ((pre & suf & E & Hpre & Hsuf) & Hends).
  split.
  - intros Z. rewrite Z in E. rewrite E, forallb_app, Hpre. exact Hsuf.
  - intros Hall. destruct (strip_by p s) as [|c r]; [reflexivity|].
    destruct Hends as [Pc _]. rewrite E, !forallb_app in Hall.
    cbn [forallb] in Hall. rewrite Pc, andb_false_r in Hall. discriminate.
Qed.

Lemma strip_by_idempotent (s : str) :
  strip_by p (strip_by p s) = strip_by p s.
Proof.
  destruct (strip_by_shape s) as (_ & Hends).
  destruct (strip_by p s) as [|c r] eqn:E; [reflexivity|].
  destruct Hends as [Pc Plast]. unfold strip_by.
  rewrite (lstrip_fixed (c :: r) Pc). unfold rstrip_by.
  assert (Hrev : lstrip_by p (rev (c :: r)) = rev (c :: r)).
  { apply lstrip_fixed.
    destruct (rev (c :: r)) as [|x t] eqn:R; [exact I|].
    apply (f_equal (@rev N)) in R. rewrite rev_involutive in R.
    cbn [rev] in R. rewrite R, last_last in Plast. exact Plast. }
  rewrite Hrev. apply rev_involutive.
Qed.

End Strip.

(** X14.  [str.strip()] removes whitespace from the two ends and nothing
    else: the input is the result between two runs of whitespace, a result
    that is not empty neither starts nor ends with whitespace, the result is
    empty exactly when every character is whitespace, and stripping twice
    changes nothing more.  The same holds for [strip(chars)] and the
    characters of [chars]. *)
Theorem strip_trims_both_ends (chars s : str) :
  ((exists pre suf,
      s = pre ++ strip s ++ suf
      /\ forallb isspace pre = true /\ forallb isspace suf = true)
   /\ match strip s with
      | [] => True
      | c :: r => isspace c = false /\ isspace (last (c :: r) c) = false
      end
   /\ (strip s = [] <-> forallb isspace s = true)
   /\ strip (strip s) = strip s)
  /\ ((exists pre suf,
         s = pre ++ strip_chars chars s ++ suf
         /\ forallb (fun c => chr_in c chars) pre = true
         /\ forallb (fun c => chr_in c chars) suf = true)
      /\ match strip_chars chars s with
         | [] => True
         | c :: r =>
           chr_in c chars = false /\ chr_in (last (c :: r) c) chars = false
         end
      /\ (strip_chars chars s = [] <->
          forallb (fun c => chr_in c chars) s = true)
      /\ strip_chars chars (strip_chars chars s) = strip_chars chars s).
Proof.
  unfold strip, strip_chars. split.
  - destruct (strip_by_shape isspace s) as (H1 & H2).
    split; [exact H1|]. split; [exact H2|].
    split; [apply strip_by_blank | apply strip_by_idempotent].
  - destruct (strip_by_shape (fun c => chr_in c chars) s) as (H1 & H2).
    split; [exact H1|]. split; [exact H2|].
    split; [apply strip_by_blank | apply strip_by_idempotent].
Qed.

(** ** Keyword lookups *)

Lemma find_first_match (A : Type) (p : A -> bool) (l : list A) :
  match List.find p l with
  | Some x =>
    exists pre post,
      l = pre ++ x :: post /\ p x = true
      /\ forallb (fun y => negb (p y)) pre = true
  | None => forallb (fun y => negb (p y)) l = true
  end.
Proof.
  induction l as [|y l IH]; [reflexivity|]. cbn [List.find].
  destruct (p y) eqn:Py.
  - exists [], l. auto.
  - destruct (List.find p l) as [x|].
    + destruct IH as (pre & post & -> & Px & Hpre).
      exists (y :: pre), post. cbn [app forallb]. rewrite Py. auto.
    + cbn [forallb]. now rewrite Py.
Qed.

Lemma any_keyword_occurs (keywords : list str) (normalized : str) :
  Db.any_keyword keywords normalized = true <->
  exists keyword pre post,
    In keyword keywords /\ normalized = pre ++ keyword ++ post.
Proof.
  unfold Db.any_keyword. rewrite existsb_exists. split.
  - intros (k & Hk & Hc).
    apply (proj1 (contains_is_substring normalized k)) in Hc
      as (pre & post & E).
    now exists k, pre, post.
  - intros (k & pre & post & Hk & E). exists k. split; [exact Hk|].
    apply (proj1 (contains_is_substring normalized k)). now exists pre, post.
Qed.

(** X15.  Each keyword lookup answers from the first row of the author, in
    table order, that has a keyword occurring in the lowercased text, and
    gives nothing exactly when no row of the author has such a keyword: the
    FAQ lookup gives that entry's stored answer, the poem lookup the title,
    an empty line and the text, the character lookup the name, a colon and
    the description. *)
Theorem lookups_answer_from_first_match
    (lower : str -> str) (db : Database) (a : Z) (user_text : str) :
  let hit := fun keywords => Db.any_keyword keywords (lower user_text) in
  match Db.find_faq_answer lower db a user_text with
  | Some answer =>
    exists pre entry post,
      filter (fun f => Z.eqb (Faq.author_id f) a) (faq db)
      = pre ++ entry :: post
      /\ hit (Faq.keywords entry) = true
      /\ forallb (fun f => negb (hit (Faq.keywords f))) pre = true
      /\ answer = Faq.answer entry
  | None =>
    forallb (fun f => negb (hit (Faq.keywords f)))
      (filter (fun f => Z.eqb (Faq.author_id f) a) (faq db)) = true
  end
  /\ match Db.find_poem_text lower db a user_text with
     | Some reply =>
       exists pre row post,
         filter (fun p => Z.eqb (Poem.author_id p) a) (poems db)
         = pre ++ row :: post
         /\ hit (Poem.keywords row) = true
         /\ forallb (fun p => negb (hit (Poem.keywords p))) pre = true
         /\ reply = Poem.title row ++ nl2 ++ Poem.text row
     | None =>
       forallb (fun p => negb (hit (Poem.keywords p)))
         (filter (fun p => Z.eqb (Poem.author_id p) a) (poems db)) = true
     end
  /\ match Db.find_character_insight lower db a user_text with
     | Some reply =>
       exists pre row post,
         filter (fun c => Z.eqb (Character.author_id c) a) (characters db)
         = pre ++ row :: post
         /\ hit (Character.keywords row) = true
         /\ forallb (fun c => negb (hit (Character.keywords c))) pre = true
         /\ reply = Character.name row ++ u ": " ++ Character.description row
     | None =>
       forallb (fun c => negb (hit (Character.keywords c)))
         (filter (fun c => Z.eqb (Character.author_id c) a) (characters db))
       = true
     end
  /\ (forall keywords,
        hit keywords = true <->
        exists keyword pre post,
          In keyword keywords /\ lower user_text = pre ++ keyword ++ post).
Proof.
  intros hit. split; [|split; [|split]].
  - unfold Db.find_faq_answer, Db.get_faq_entries.
    pose proof (find_first_match
      (fun entry => Db.any_keyword (Faq.keywords entry) (lower user_text))
      (filter (fun f => Z.eqb (Faq.author_id f) a) (faq db))) as H.
    destruct (List.find _ _) as [entry|]; cbn [option_map]; [|exact H].
    destruct H as (pre & post & E & Hx & Hpre). now exists pre, entry, post.
  - unfold Db.find_poem_text, Db.poem_rows.
    pose proof (find_first_match
      (fun row => Db.any_keyword (Poem.keywords row) (lower user_text))
      (filter (fun p => Z.eqb (Poem.author_id p) a) (poems db))) as H.
    destruct (List.find _ _) as [row|]; cbn [option_map]; [|exact H].
    destruct H as (pre & post & E & Hx & Hpre). now exists pre, row, post.
  - unfold Db.find_character_insight.
    pose proof (find_first_match
      (fun row => Db.any_keyword (Character.keywords row) (lower user_text))
      (filter (fun c => Z.eqb (Character.author_id c) a) (characters db)))
      as H.
    destruct (List.find _ _) as [row|]; cbn [option_map]; [|exact H].
    destruct H as (pre & post & E & Hx & Hpre). now exists pre, row, post.
  - intros keywords. apply any_keyword_occurs.
Qed.

(** ** The adapter's result *)

(** X16.  The text [generate_reply] returns is never empty, so the reply
    sent after it is never an empty message; and when it raises, it raises
    the exception the provider call raised, which is not an [APIError]. *)
Theorem adapter_text_is_never_empty
    (openai_model : str) (create : Ai.provider) (author : Author.t)
    (ws : works) (user_message : str) :
  match Ai.generate_reply openai_model create author ws user_message with
  | Ret s => truthy s = true
  | Raise x =>
    create (Ai.request_for openai_model author ws user_message) = Raise x
    /\ match x with APIError _ => False | _ => True end
  end.
Proof.
  unfold Ai.generate_reply.
  destruct (create (Ai.request_for openai_model author ws user_message))
    as [response | [ | code | cls]]; try (split; [reflexivity | exact I]).
  - destruct (truthy (strip _)) eqn:T; [exact T|]. vm_compute. reflexivity.
  - destruct (Ai.degraded_apology ++ Ai.code_note code) eqn:E; [|reflexivity].
    apply (f_equal (@List.length N)) in E. rewrite length_app in E.
    vm_compute in E. discriminate.
Qed.

(** ** The list of titles *)

Lemma str_leb_total (a b : str) : str_leb a b = false -> str_leb b a = true.
Proof.
  revert b. induction a as [|x a IH]; intros [|y b]; cbn [str_leb];
    try discriminate; try reflexivity.
  intros H. apply orb_false_iff in H as [Hlt H].
  apply N.ltb_ge in Hlt. destruct (N.eqb_spec x y) as [-> | Hne].
  - cbn [andb] in H. rewrite N.eqb_refl, (IH b H). apply orb_true_r.
  - assert (Hyx : (y <? x)%N = true) by (apply N.ltb_lt; lia).
    now rewrite Hyx.
Qed.

Lemma insert_title_permutation (t : str) (l : list str) :
  Permutation (t :: l) (Db.insert_title t l).
Proof.
  induction l as [|x l IH]; [reflexivity|]. cbn [Db.insert_title].
  destruct (str_leb t x); [reflexivity|].
  etransitivity; [apply perm_swap | now apply perm_skip].
Qed.

Lemma insert_title_sorted (t : str) (l : list str) :
  Sorted (fun a b => str_leb a b = true) l ->
  Sorted (fun a b => str_leb a b = true) (Db.insert_title t l).
Proof.
  induction l as [|x l IH]; intros Hs.
  - repeat constructor.
  - cbn [Db.insert_title]. destruct (str_leb t x) eqn:E.
    + constructor; [exact Hs | now constructor].
    + apply Sorted_inv in Hs as [Hs Hhd].
      constructor; [now apply IH|].
      destruct l as [|y l]; cbn [Db.insert_title].
      * constructor. now apply str_leb_total.
      * destruct (str_leb t y); constructor.
        -- now apply str_leb_total.
        -- now apply HdRel_inv in Hhd.
Qed.

(** X17.  [get_poem_titles] gives the titles of the author's poems, each as
    often as the author has poems of that title, in ascending order of
    their code points ([ORDER BY title]). *)
Theorem poem_titles_are_sorted (db : Database) (a : Z) :
  Permutation (Db.get_poem_titles db a)
    (map Poem.title
       (filter (fun p => Z.eqb (Poem.author_id p) a) (poems db)))
  /\ Sorted (fun s t => str_leb s t = true) (Db.get_poem_titles db a).
Proof.
  unfold Db.get_poem_titles, Db.poem_rows.
  induction (map Poem.title
               (filter (fun p => Z.eqb (Poem.author_id p) a) (poems db)))
    as [|t l [IHp IHs]]; cbn [fold_right].
  - split; constructor.
  - split; [|now apply insert_title_sorted].
    etransitivity; [symmetry; apply insert_title_permutation|].
    now apply perm_skip.
Qed.

(** ** Settings *)

Lemma get_env_usable (env : Config.environ) (name : str) (default : option str) :
  match Config._get_env env name default with
  | Config.Loaded v =>
    Config.usable env name default = true
    /\ truthy v = true /\ strip v = v
    /\ exists value, Config.getenv env name default = Some value
                     /\ v = strip value
  | Config.SettingsError m =>
    Config.usable env name default = false /\ m = Config.required name
  end.
Proof.
  unfold Config._get_env, Config.usable.
  destruct (Config.getenv env name default) as [value|]; [|auto].
  destruct (truthy (strip value)) eqn:T; cbn [negb]; [|auto].
  split; [reflexivity|]. split; [exact T|].
  split; [apply strip_by_idempotent|]. now exists value.
Qed.

(** X18.  [get_settings] succeeds exactly when the bot token and the API key
    are set and not blank and the model and the database path are unset or
    not blank.  Every loaded value is trimmed and not empty, the model and
    the path take their defaults exactly when the variable is unset (a
    variable set to a blank value is an error, default or not), and the
    error names the first variable, in the order of the four reads, that is
    not usable. *)
Theorem settings_are_required_and_trimmed (env : Config.environ) :
  let token := Config.usable env (u "TELEGRAM_BOT_TOKEN") None in
  let key := Config.usable env (u "OPENAI_API_KEY") None in
  let model := Config.usable env (u "OPENAI_MODEL") (Some (u "gpt-5.0-nano")) in
  let path :=
    Config.usable env (u "DATABASE_PATH") (Some (u "data/literature.db")) in
  match Config.get_settings env with
  | Config.Loaded s =>
    token && key && model && path = true
    /\ Forall (fun v => truthy v = true /\ strip v = v)
         [Config.telegram_token s; Config.openai_api_key s;
          Config.openai_model s; Config.database_path s]
    /\ match env (u "OPENAI_MODEL") with
       | Some value => Config.openai_model s = strip value
       | None => Config.openai_model s = u "gpt-5.0-nano"
       end
    /\ match env (u "DATABASE_PATH") with
       | Some value => Config.database_path s = strip value
       | None => Config.database_path s = u "data/literature.db"
       end
  | Config.SettingsError m =>
    (token = false /\ m = Config.required (u "TELEGRAM_BOT_TOKEN"))
    \/ (token = true /\ key = false
        /\ m = Config.required (u "OPENAI_API_KEY"))
    \/ (token = true /\ key = true /\ model = false
        /\ m = Config.required (u "OPENAI_MODEL")
        /\ exists blank, env (u "OPENAI_MODEL") = Some blank
                         /\ strip blank = [])
    \/ (token = true /\ key = true /\ model = true /\ path = false
        /\ m = Config.required (u "DATABASE_PATH")
        /\ exists blank, env (u "DATABASE_PATH") = Some blank
                         /\ strip blank = [])
  end.
Proof.
  intros token key model path. subst token key model path.
  unfold Config.get_settings.
  pose proof (get_env_usable env (u "TELEGRAM_BOT_TOKEN") None) as H1.
  destruct (Config._get_env env (u "TELEGRAM_BOT_TOKEN") None) as [t|m1];
    [|left; exact H1].
  destruct H1 as (U1 & T1 & S1 & _). rewrite U1.
  pose proof (get_env_usable env (u "OPENAI_API_KEY") None) as H2.
  destruct (Config._get_env env (u "OPENAI_API_KEY") None) as [k|m2];
    [|right; left; destruct H2; auto].
  destruct H2 as (U2 & T2 & S2 & _). rewrite U2.
  pose proof (get_env_usable env (u "OPENAI_MODEL") (Some (u "gpt-5.0-nano")))
    as H3.
  assert (Hblank : forall name default,
            Config.usable env name (Some default) = false ->
            truthy (strip default) = true ->
            exists blank, env name = Some blank /\ strip blank = []).
  { intros name default Hu Hd. unfold Config.usable, Config.getenv in Hu.
    destruct (env name) as [v|]; [|congruence].
    exists v. split; [reflexivity|]. now destruct (strip v). }
  destruct (Config._get_env env (u "OPENAI_MODEL") (Some (u "gpt-5.0-nano")))
    as [mo|m3].
  - destruct H3 as (U3 & T3 & S3 & v3 & G3 & E3). rewrite U3.
    pose proof (get_env_usable env (u "DATABASE_PATH")
                  (Some (u "data/literature.db"))) as H4.
    destruct (Config._get_env env (u "DATABASE_PATH")
                (Some (u "data/literature.db"))) as [pa|m4].
    + destruct H4 as (U4 & T4 & S4 & v4 & G4 & E4). rewrite U4.
      cbn [Config.telegram_token Config.openai_api_key Config.openai_model
           Config.database_path].
      split; [reflexivity|]. split; [repeat constructor; assumption|].
      unfold Config.getenv in G3, G4. split.
      * destruct (env (u "OPENAI_MODEL")); injection G3 as <-;
          [exact E3 | rewrite E3; vm_compute; reflexivity].
      * destruct (env (u "DATABASE_PATH")); injection G4 as <-;
          [exact E4 | rewrite E4; vm_compute; reflexivity].
    + destruct H4 as (U4 & ->). right; right; right.
      repeat (split; [reflexivity || assumption|]).
      apply (Hblank _ _ U4). vm_compute. reflexivity.
  - destruct H3 as (U3 & ->). right; right; left.
    repeat (split; [reflexivity || assumption|]).
    apply (Hblank _ _ U3). vm_compute. reflexivity.
Qed.

(** ** The picker over a whole round *)



